(** * pyFaceCam: configuration store, camera enumeration and crop pipeline

    A shallow embedding of [main.py].  Python values that can sit in the
    configuration dict are an inductive type, dicts with string keys are
    [gmap string pyval], Python floats are binary64 primitive floats,
    exceptions are an explicit result type, and one iteration of the
    [while True] loop of [camera_loop] is a function in a small
    state/trace/exception monad. *)

From Stdlib Require Import ZArith QArith Qabs Lqa Floats Lia.
From stdpp Require Import gmap strings list list_numbers fin_maps sorting.

#[local] Set Warnings "-register-all,-clear-no-such-hyp".
Local Open Scope Z_scope.

(** ** Exceptions and results *)

Inductive pyexn : Type :=
  | TypeError
  | ValueError
  | OverflowError
  | KeyError
  | Cv2Error.

Inductive res (A : Type) : Type :=
  | Ok (a : A)
  | Raise (e : pyexn).
Arguments Ok {A} a.
Arguments Raise {A} e.

Definition res_bind {A B} (r : res A) (k : A → res B) : res B :=
  match r with
  | Ok a => k a
  | Raise e => Raise e
  end.

#[global] Instance res_mret : MRet res := @Ok.
#[global] Instance res_mbind : MBind res := λ A B k r, res_bind r k.

Definition is_ok {A} (r : res A) : Prop :=
  match r with Ok _ => True | Raise _ => False end.

(** ** Binary64 floats as Python has them *)

Module Float64.

(** Magnitude [m * 2^e] cut towards zero. *)
Definition trunc_mag (m e : Z) : Z := Z.shiftl m e.

(** Magnitude [m * 2^e] rounded to the nearest integer, ties to even. *)
Definition round_mag (m e : Z) : Z :=
  if 0 <=? e then m * 2 ^ e
  else
    let d := 2 ^ (- e) in
    let q := m / d in
    let r := m mod d in
    match 2 * r ?= d with
    | Lt => q
    | Gt => q + 1
    | Eq => if Z.even q then q else q + 1
    end.

Definition to_int_with (rnd : Z → Z → Z) (f : float) : res Z :=
  match Prim2SF f with
  | S754_zero _ => Ok 0
  | S754_infinity _ => Raise OverflowError
  | S754_nan => Raise ValueError
  | S754_finite s m e =>
      let mag := rnd (Z.pos m) e in
      Ok (if s then - mag else mag)
  end.

(** [int(f)] *)
Definition trunc : float → res Z := to_int_with trunc_mag.

(** [round(f)] with one argument *)
Definition round : float → res Z := to_int_with round_mag.

(** Nearest binary64 value of an integer (ties to even); exact below
    [2^53], which covers every int32 pixel coordinate. *)
Definition of_Z (z : Z) : float :=
  SF2Prim (binary_normalize 53 1024 z 0 false).

(** [float(z)]: raises when the integer is out of binary64 range. *)
Definition of_int (z : Z) : res float :=
  let f := of_Z z in
  if is_infinity f then Raise OverflowError else Ok f.

(** [f == z] for a float and an integer: exact comparison. *)
Definition eq_int (f : float) (z : Z) : bool :=
  match Prim2SF f with
  | S754_zero _ => z =? 0
  | S754_finite s m e =>
      let v := if s then Z.neg m else Z.pos m in
      if 0 <=? e then z =? v * 2 ^ e
      else (v mod 2 ^ (- e) =? 0) && (z =? v / 2 ^ (- e))
  | _ => false
  end.


End Float64.

(** ** Python values held by the configuration and sent by clients *)

Inductive pyval : Type :=
  | VNone
  | VBool (b : bool)
  | VInt (z : Z)
  | VFloat (f : float)
  | VStr (s : string)
  | VList (l : list pyval).

(** [isinstance(v, int)]; [bool] is a subclass of [int]. *)
Definition isinstance_int (v : pyval) : bool :=
  match v with
  | VInt _ | VBool _ => true
  | _ => false
  end.

Definition is_none (v : pyval) : bool :=
  match v with VNone => true | _ => false end.

(** [a == b] *)
Fixpoint py_eq (a b : pyval) {struct a} : bool :=
  match a, b with
  | VNone, VNone => true
  | VBool x, VBool y => Bool.eqb x y
  | VBool x, VInt y => Z.b2z x =? y
  | VInt x, VBool y => x =? Z.b2z y
  | VInt x, VInt y => x =? y
  | VBool x, VFloat y => Float64.eq_int y (Z.b2z x)
  | VInt x, VFloat y => Float64.eq_int y x
  | VFloat x, VBool y => Float64.eq_int x (Z.b2z y)
  | VFloat x, VInt y => Float64.eq_int x y
  | VFloat x, VFloat y => PrimFloat.eqb x y
  | VStr x, VStr y => String.eqb x y
  | VList la, VList lb =>
      (fix go (la lb : list pyval) {struct la} : bool :=
         match la, lb with
         | [], [] => true
         | x :: xs, y :: ys => py_eq x y && go xs ys
         | _, _ => false
         end) la lb
  | _, _ => false
  end.

(** [v in l] on a list or tuple whose elements are not the object [v]
    itself: some element equals [v]. *)
Definition py_in (v : pyval) (l : list pyval) : bool :=
  existsb (λ x, py_eq x v) l.

(** Python's parsers of numeric literals in strings, [int(s)] and
    [float(s)]: [None] is a [ValueError]. *)
Class PyLiterals : Type := {
  int_of_str : string → option Z;
  float_of_str : string → option float;
}.

Section conversions.
Context `{PyLiterals}.

(** [int(v)] *)
Definition py_int (v : pyval) : res Z :=
  match v with
  | VNone => Raise TypeError
  | VBool b => Ok (Z.b2z b)
  | VInt z => Ok z
  | VFloat f => Float64.trunc f
  | VStr s =>
      match int_of_str s with
      | Some z => Ok z
      | None => Raise ValueError
      end
  | VList _ => Raise TypeError
  end.

(** [float(v)] *)
Definition py_float (v : pyval) : res float :=
  match v with
  | VNone => Raise TypeError
  | VBool b => Ok (Float64.of_Z (Z.b2z b))
  | VInt z => Float64.of_int z
  | VFloat f => Ok f
  | VStr s =>
      match float_of_str s with
      | Some f => Ok f
      | None => Raise ValueError
      end
  | VList _ => Raise TypeError
  end.

End conversions.

(** ** The arithmetic the estimator and the crop planner use

    The smoothing and cropping code is written with [+], [-], [*], [int]
    and [round] only, so it is stated once over any number type that has
    them.  [float] is what runs; [Q] gives [int] and [round] their meaning
    on exact numbers. *)

Class PyNumber (A : Type) : Type := {
  num_of_int : Z → A;
  num_add : A → A → A;
  num_sub : A → A → A;
  num_mul : A → A → A;
  num_int : A → res Z;
  num_round : A → res Z;
}.

#[global] Instance float_number : PyNumber float := {
  num_of_int := Float64.of_Z;
  num_add := PrimFloat.add;
  num_sub := PrimFloat.sub;
  num_mul := PrimFloat.mul;
  num_int := Float64.trunc;
  num_round := Float64.round;
}.

(** [int(q)]: towards zero. *)
Definition Q_trunc (q : Q) : Z := Z.quot (Qnum q) (Z.pos (Qden q)).

(** [round(q)]: nearest integer, ties to even. *)
Definition Q_round (q : Q) : Z :=
  let n := Qnum q in
  let d := Z.pos (Qden q) in
  let f := n / d in
  let r := n mod d in
  match 2 * r ?= d with
  | Lt => f
  | Gt => f + 1
  | Eq => if Z.even f then f else f + 1
  end.

#[global] Instance Q_number : PyNumber Q := {
  num_of_int := inject_Z;
  num_add := Qplus;
  num_sub := Qminus;
  num_mul := Qmult;
  num_int := λ q, Ok (Q_trunc q);
  num_round := λ q, Ok (Q_round q);
}.

(** ** Configuration store *)

Abbreviation dict := (gmap string pyval).

Definition float_0_01 : float := 0x1.47ae147ae147bp-7%float.
Definition float_0_02 : float := 0x1.47ae147ae147bp-6%float.
Definition float_2_8 : float := 0x1.6666666666666p+1%float.

(** The global [config] as the module creates it. *)
Definition default_config : dict :=
  <["camera_index" := VNone]>
  (<["orientation" := VStr "none"]>
  (<["detection_every_n_frames" := VInt 10]>
  (<["smoothing_alpha" := VFloat float_0_02]>
  (<["margin_factor" := VFloat float_2_8]> ∅)))).

(** The process state the store functions touch: the dict and the
    content of [facecam_config.json] ([None]: no file, or a file that
    does not parse). *)
Record store : Type := {
  config : dict;
  config_file : option dict;
}.

(** [for k, v in d.items(): if k in config: config[k] = v] *)
Definition assign_known (d cfg : dict) : dict :=
  map_fold (λ k v acc, if decide (is_Some (acc !! k)) then <[k := v]> acc else acc)
           cfg d.

Definition load_persisted_config (linux : bool) (st : store) : store :=
  match config_file st with
  | None => st
  | Some data =>
      let cfg := assign_known data (config st) in
      let cfg :=
        if linux && py_eq (default VNone (cfg !! "camera_index")) (VInt 0)
        then <["camera_index" := VNone]> cfg
        else cfg in
      {| config := cfg; config_file := config_file st |}
  end.

(** [disk_ok] says whether [write_text] succeeds; a failure is logged
    and swallowed. *)
Definition persist_config (disk_ok : bool) (st : store) : store :=
  let data := config st in
  if disk_ok then {| config := config st; config_file := Some data |} else st.

Definition get_config (st : store) : dict := config st.

Definition update_config (disk_ok : bool) (changes : dict) (st : store) : store :=
  persist_config disk_ok
    {| config := assign_known changes (config st); config_file := config_file st |}.

(** A new process: the module builds [config] from its literals and
    calls [load_persisted_config] once, while the file stays as it was. *)
Definition restart (linux : bool) (st : store) : store :=
  load_persisted_config linux
    {| config := default_config; config_file := config_file st |}.

(** ** Camera probing *)

Section probing.
(** What the operating system answers: [cap.isOpened()] and the [ret]
    of one [cap.read()] for a device index. *)
Variable opens : Z → bool.
Variable reads : Z → bool.

Definition probe_step (current_idx : pyval) (cams : list pyval) (i : Z)
  : list pyval :=
  if negb (is_none current_idx) && py_eq (VInt i) current_idx then
    if negb (py_in (VInt i) cams) then cams ++ [VInt i] else cams
  else if opens i then
    if reads i then cams ++ [VInt i] else cams
  else cams.

Definition list_cameras (linux : bool) (st : store) (max_index : Z)
  : list pyval :=
  let cfg := get_config st in
  let current_idx := default VNone (cfg !! "camera_index") in
  let start := if linux then 1 else 0 in
  let cams := foldl (probe_step current_idx) []
                    (seqZ start (max_index - start)) in
  if negb (is_none current_idx) && negb (py_in current_idx cams)
  then cams ++ [current_idx]
  else cams.
End probing.

(** ** The field types and coercions of the data model

    These two definitions follow the validation table of the
    specification, not the code: the type each field accepts, and the
    value a well-typed submission is coerced to. *)

Definition well_typed (k : string) (v : pyval) : Prop :=
  if String.eqb k "camera_index" then ∃ i, v = VInt i
  else if String.eqb k "orientation"
       then v = VStr "none" ∨ v = VStr "cw" ∨ v = VStr "ccw"
  else if String.eqb k "detection_every_n_frames" then ∃ n, v = VInt n
  else if String.eqb k "smoothing_alpha" then ∃ a, v = VFloat a
  else if String.eqb k "margin_factor" then ∃ m, v = VFloat m
  else True.

Definition coerced (k : string) (v : pyval) : pyval :=
  match v with
  | VInt n =>
      if String.eqb k "detection_every_n_frames" then VInt (Z.max 1 n) else v
  | VFloat f =>
      if String.eqb k "smoothing_alpha"
      then VFloat (if PrimFloat.leb f 0 then float_0_01 else f)
      else if String.eqb k "margin_factor"
           then VFloat (if PrimFloat.ltb f 1 then 1%float else f)
           else v
  | _ => v
  end.

(** ** The [/api/config] handler *)

Section api.
Context `{PyLiterals}.

(** [try: ... except (TypeError, ValueError): log.warning(...)] *)
Definition except_type_value {A} (r : res A) : res (option A) :=
  match r with
  | Ok a => Ok (Some a)
  | Raise TypeError | Raise ValueError => Ok None
  | Raise e => Raise e
  end.

Definition clamp_detection (n : Z) : Z := if n <? 1 then 1 else n.
Definition clamp_alpha (a : float) : float :=
  if PrimFloat.leb a 0 then float_0_01 else a.
Definition clamp_margin (m : float) : float :=
  if PrimFloat.ltb m 1 then 1%float else m.

Definition orientations : list pyval := [VStr "none"; VStr "cw"; VStr "ccw"].

(** The five [if "..." in data:] blocks, each as what it decides for the
    submitted value: the value to put in [changes], nothing, or an
    exception that is not caught. *)
Definition check_camera_index (val : pyval) : res (option pyval) :=
  mret (if isinstance_int val then Some val else None).

Definition check_orientation (o : pyval) : res (option pyval) :=
  mret (if py_in o orientations then Some o else None).

Definition check_detection (v : pyval) : res (option pyval) :=
  r ← except_type_value (py_int v);
  mret (n ← r; Some (VInt (clamp_detection n))).

Definition check_alpha (v : pyval) : res (option pyval) :=
  r ← except_type_value (py_float v);
  mret (a ← r; Some (VFloat (clamp_alpha a))).

Definition check_margin (v : pyval) : res (option pyval) :=
  r ← except_type_value (py_float v);
  mret (m ← r; Some (VFloat (clamp_margin m))).

Definition collect_field (k : string) (check : pyval → res (option pyval))
    (data changes : dict) : res dict :=
  match data !! k with
  | Some v =>
      o ← check v;
      mret (match o with Some x => <[k := x]> changes | None => changes end)
  | None => mret changes
  end.

(** The [changes] dict the POST branch builds from the payload. *)
Definition collect_changes (data : dict) : res dict :=
  changes ← collect_field "camera_index" check_camera_index data ∅;
  changes ← collect_field "orientation" check_orientation data changes;
  changes ← collect_field "detection_every_n_frames" check_detection data changes;
  changes ← collect_field "smoothing_alpha" check_alpha data changes;
  collect_field "margin_factor" check_margin data changes.

(** The block of the handler that looks at key [k]; no block looks at
    any other key. *)
Definition field_check (k : string) : pyval → res (option pyval) :=
  if String.eqb k "camera_index" then check_camera_index
  else if String.eqb k "orientation" then check_orientation
  else if String.eqb k "detection_every_n_frames" then check_detection
  else if String.eqb k "smoothing_alpha" then check_alpha
  else if String.eqb k "margin_factor" then check_margin
  else λ _, Ok None.

(** What the handler ends up writing for a submitted field. *)
Definition written (k : string) (v : pyval) : option pyval :=
  match field_check k v with
  | Ok o => o
  | Raise _ => None
  end.

(** No submitted number is too large for the conversion its block
    applies: [int] of an infinite float and [float] of an integer beyond
    the binary64 range raise [OverflowError], which no block catches. *)
Definition no_overflow (data : dict) : Prop :=
  (∀ v, data !! "detection_every_n_frames" = Some v → py_int v ≠ Raise OverflowError)
  ∧ (∀ v, data !! "smoothing_alpha" = Some v → py_float v ≠ Raise OverflowError)
  ∧ (∀ v, data !! "margin_factor" = Some v → py_float v ≠ Raise OverflowError).

(** POST: the new process state and either the JSON body of the
    response or the exception that leaves the handler. *)
Definition api_config_post (disk_ok : bool) (data : dict) (st : store)
  : store * res dict :=
  match collect_changes data with
  | Raise e => (st, Raise e)
  | Ok changes =>
      let st' := if Nat.eqb (size changes) 0 then st
                 else update_config disk_ok changes st in
      (st', Ok (get_config st'))
  end.

Definition api_config_get (st : store) : store * res dict :=
  (st, Ok (get_config st)).
End api.

(** ** Frames and numpy slicing

    A frame is a 3-channel BGR image; only its shape matters here. *)

Record shape : Type := {
  rows : Z;
  cols : Z;
}.

Definition OUT_W : Z := 640.
Definition OUT_H : Z := 640.
Definition FPS : Z := 30.

(** [cv2.rotate] by a quarter turn swaps the two dimensions. *)
Definition rotate_quarter (frame : shape) : shape :=
  {| rows := cols frame; cols := rows frame |}.

Definition apply_orientation (frame : shape) (orientation : pyval) : shape :=
  if py_eq orientation (VStr "cw") then rotate_quarter frame
  else if py_eq orientation (VStr "ccw") then rotate_quarter frame
  else frame.

(** One bound of a basic slice [a[lo:hi]] on an axis of length [n]:
    negative bounds count from the end, and everything is clipped. *)
Definition slice_bound (n i : Z) : Z :=
  if i <? 0 then Z.max (i + n) 0 else Z.min i n.

Definition slice_len (n lo hi : Z) : Z :=
  Z.max 0 (slice_bound n hi - slice_bound n lo).

(** Shape of [frame[y_lo:y_hi, x_lo:x_hi]]. *)
Definition np_slice (frame : shape) (y_lo y_hi x_lo x_hi : Z) : shape :=
  {| rows := slice_len (rows frame) y_lo y_hi;
     cols := slice_len (cols frame) x_lo x_hi |}.

(** [img.size]: number of array elements. *)
Definition np_size (img : shape) : Z := rows img * cols img * 3.

(** [cv2.resize(img, (w, h))] refuses an empty source. *)
Definition cv2_resize (img : shape) (w h : Z) : res shape :=
  if (0 <? rows img) && (0 <? cols img)
  then Ok {| rows := h; cols := w |}
  else Raise Cv2Error.

(** ** Face estimate and crop planning *)

(** A detection [(x, y, w, h)] as [detectMultiScale] returns it. *)
Definition box : Type := Z * Z * Z * Z.

(** The four numbers are [numpy.int32] scalars, and so are the results of
    [+], [*] and [//] on them: a result outside [-2^31, 2^31) wraps
    around. *)
Definition int32 (z : Z) : Z := (z + 2 ^ 31) mod 2 ^ 32 - 2 ^ 31.

(** [f[2] * f[3]] *)
Definition area (f : box) : Z := let '(_, _, w, h) := f in int32 (w * h).

(** [max(faces, key=lambda f: f[2] * f[3])]: the first of the largest. *)
Fixpoint max_by_area (best : box) (rest : list box) : box :=
  match rest with
  | [] => best
  | f :: rest' => max_by_area (if area best <? area f then f else best) rest'
  end.

(** A crop as the loop names it: top-left corner and side. *)
Record square : Type := {
  sq_x : Z;
  sq_y : Z;
  sq_size : Z;
}.

Section tracking.
Context {A : Type} `{PyNumber A}.

(** [smooth_cx], [smooth_cy], [smooth_size], which the loop always
    assigns together; the three being [None] is [None] here. *)
Record estimate : Type := {
  smooth_cx : A;
  smooth_cy : A;
  smooth_size : A;
}.

(** [(1 - alpha) * old + alpha * sample] *)
Definition ema (alpha old : A) (sample : Z) : A :=
  num_add (num_mul (num_sub (num_of_int 1) alpha) old)
          (num_mul alpha (num_of_int sample)).

Definition update_estimate (alpha : A) (prev : option estimate) (face : box)
  : estimate :=
  let '(x, y, w, h) := face in
  let cx := int32 (x + w / 2) in
  let cy := int32 (y + h / 2) in
  let size := Z.max w h in
  match prev with
  | None =>
      {| smooth_cx := num_of_int cx;
         smooth_cy := num_of_int cy;
         smooth_size := num_of_int size |}
  | Some e =>
      {| smooth_cx := ema alpha (smooth_cx e) cx;
         smooth_cy := ema alpha (smooth_cy e) cy;
         smooth_size := ema alpha (smooth_size e) size |}
  end.

(** What the detection branch does with the detector's answer. *)
Definition track (alpha : A) (prev : option estimate) (faces : list box)
  : option estimate :=
  match faces with
  | [] => prev
  | f :: rest => Some (update_estimate alpha prev (max_by_area f rest))
  end.

(** The branch without a face: centred square. *)
Definition center_square (h_f w_f : Z) : square :=
  let size := Z.min h_f w_f in
  let x0 := (w_f - size) / 2 in
  let y0 := (h_f - size) / 2 in
  {| sq_x := x0; sq_y := y0; sq_size := size |}.

(** [desired = int(smooth_size * margin)] *)
Definition desired_size (e : estimate) (margin : A) : res Z :=
  num_int (num_mul (smooth_size e) margin).

Definition clamp_size (h_f w_f desired : Z) : Z :=
  let max_square := Z.min h_f w_f in
  Z.max 50 (Z.min desired max_square).

(** The corner after the four [if] clamps. *)
Definition clamp_corner (h_f w_f size cx cy : Z) : Z * Z :=
  let x1 := cx - size / 2 in
  let y1 := cy - size / 2 in
  let x1 := if x1 <? 0 then 0 else x1 in
  let y1 := if y1 <? 0 then 0 else y1 in
  let x1 := if w_f <? x1 + size then w_f - size else x1 in
  let y1 := if h_f <? y1 + size then h_f - size else y1 in
  (x1, y1).

(** The branch with a face, up to [x2], [y2]. *)
Definition plan_square (h_f w_f : Z) (e : estimate) (margin : A) : res square :=
  desired ← desired_size e margin;
  let size := clamp_size h_f w_f desired in
  cx ← num_round (smooth_cx e);
  cy ← num_round (smooth_cy e);
  let '(x1, y1) := clamp_corner h_f w_f size cx cy in
  mret {| sq_x := x1; sq_y := y1; sq_size := size |}.

Definition slice_square (frame : shape) (s : square) : shape :=
  np_slice frame (sq_y s) (sq_y s + sq_size s) (sq_x s) (sq_x s + sq_size s).

(** The square the iteration ends up cropping, and the crop's shape:
    the planned square, or the centred one when there is no estimate or
    the planned slice is empty or not square. *)
Definition select_crop (frame : shape) (est : option estimate) (margin : A)
  : res (square * shape) :=
  let h_f := rows frame in
  let w_f := cols frame in
  match est with
  | None =>
      let s := center_square h_f w_f in
      mret (s, slice_square frame s)
  | Some e =>
      s ← plan_square h_f w_f e margin;
      let crop := slice_square frame s in
      if (np_size crop =? 0) || negb (rows crop =? cols crop) then
        let s0 := center_square h_f w_f in
        mret (s0, slice_square frame s0)
      else mret (s, crop)
  end.

(** From the oriented frame to the image given to [vcam.send]. *)
Definition render (frame : shape) (est : option estimate) (margin : A)
  : res shape :=
  '(_, crop) ← select_crop frame est margin;
  cv2_resize crop OUT_W OUT_H.

(** The estimate's numbers are ones [int] and [round] accept (for
    floats: neither infinite nor NaN). *)
Definition convertible (est : option estimate) (margin : A) : Prop :=
  match est with
  | None => True
  | Some e =>
      is_ok (desired_size e margin)
      ∧ is_ok (num_round (smooth_cx e))
      ∧ is_ok (num_round (smooth_cy e))
  end.

(** The desired size as the specification words it:
    [round(estimate.size * margin_factor)]. *)
Definition spec_desired_size (e : estimate) (margin : A) : res Z :=
  num_round (num_mul (smooth_size e) margin).

End tracking.

Arguments estimate A : clear implicits.




(** ** The loop of [camera_loop]

    One pass through the body of [while True].  The local variables are
    the state; what the iteration does to the devices is a trace; the
    iteration ends normally, by [continue], or by an exception, which
    leaves the loop (the [try] is outside the [while]). *)

Record loop_state : Type := {
  smooth : option (estimate float);
  frame_idx : Z;
  current_cam_index : pyval;
  cap : option pyval;
}.

Inductive event : Type :=
  | EvRelease (idx : pyval)
  | EvOpen (idx : pyval)
  | EvSleep (millis : Z)
  | EvSend (img : shape)
  | EvPace.

(** What the outside world answers during one iteration: the snapshot
    [get_config()] returns; what [cv2.VideoCapture] does if the
    iteration opens a device: the exception it raises on an index it
    cannot take (one beyond the C [int] range, say, which the handler
    accepts), or else whether the device is open afterwards; the frame
    [cap.read()] delivers ([None]: [ret] is false); and what
    [detectMultiScale] finds if the iteration runs it. *)
Record world : Type := {
  w_cfg : dict;
  w_open_exn : option pyexn;
  w_open_ok : bool;
  w_read : option shape;
  w_faces : res (list box);
}.

Inductive flow (X : Type) : Type :=
  | Next (x : X)
  | Continue
  | Raised (e : pyexn).
Arguments Next {X} x.
Arguments Continue {X}.
Arguments Raised {X} e.

Definition loopM (X : Type) : Type :=
  loop_state → list event → loop_state * list event * flow X.

Definition loop_ret {X} (x : X) : loopM X := λ s t, (s, t, Next x).

Definition loop_bind {X Y} (m : loopM X) (k : X → loopM Y) : loopM Y :=
  λ s t,
    match m s t with
    | (s', t', Next x) => k x s' t'
    | (s', t', Continue) => (s', t', Continue)
    | (s', t', Raised e) => (s', t', Raised e)
    end.

#[global] Instance loop_mret : MRet loopM := @loop_ret.
#[global] Instance loop_mbind : MBind loopM := λ X Y k m, loop_bind m k.

Definition get_state : loopM loop_state := λ s t, (s, t, Next s).
Definition put_state (s' : loop_state) : loopM unit := λ _ t, (s', t, Next tt).
Definition emit (ev : event) : loopM unit := λ s t, (s, t ++ [ev], Next tt).
Definition continue : loopM unit := λ s t, (s, t, Continue).
Definition lift_res {X} (r : res X) : loopM X :=
  λ s t, match r with Ok x => (s, t, Next x) | Raise e => (s, t, Raised e) end.

(** [d[k]] *)
Definition subscript (d : dict) (k : string) : res pyval :=
  match d !! k with
  | Some v => Ok v
  | None => Raise KeyError
  end.

Definition set_cap (c : option pyval) : loopM unit :=
  s ← get_state;
  put_state {| smooth := smooth s; frame_idx := frame_idx s;
               current_cam_index := current_cam_index s; cap := c |}.

Definition set_smooth (e : option (estimate float)) : loopM unit :=
  s ← get_state;
  put_state {| smooth := e; frame_idx := frame_idx s;
               current_cam_index := current_cam_index s; cap := cap s |}.

Definition set_frame_idx (n : Z) : loopM unit :=
  s ← get_state;
  put_state {| smooth := smooth s; frame_idx := n;
               current_cam_index := current_cam_index s; cap := cap s |}.

Definition set_current_cam_index (v : pyval) : loopM unit :=
  s ← get_state;
  put_state {| smooth := smooth s; frame_idx := frame_idx s;
               current_cam_index := v; cap := cap s |}.

Section loop.
Context `{PyLiterals}.

(** Lines 558-582: the camera index changed. *)
Definition switch_camera (w : world) (cam : pyval) : loopM unit :=
  s ← get_state;
  (match cap s with
   | Some _ => emit (EvRelease (current_cam_index s));; set_cap None
   | None => mret tt
   end);;
  set_current_cam_index cam;;
  set_smooth None;;
  set_frame_idx 0;;
  if is_none cam then
    emit (EvSleep 100);; continue
  else
    emit (EvOpen cam);;
    match w_open_exn w with
    | Some e => lift_res (Raise e)
    | None =>
        set_cap (Some cam);;
        if negb (w_open_ok w) then
          set_cap None;; emit (EvSleep 1000);; continue
        else mret tt
    end.

(** Lines 602-627: detection on every [det_n]-th frame. *)
Definition detect (w : world) (det_n : Z) (alpha : float) : loopM unit :=
  s ← get_state;
  if frame_idx s mod det_n =? 0 then
    faces ← lift_res (w_faces w);
    set_smooth (track alpha (smooth s) faces)
  else mret tt.

(** Lines 629-680: crop, resize, send, wait for the next frame time. *)
Definition send_frame (frame : shape) (margin : float) : loopM unit :=
  s ← get_state;
  img ← lift_res (render frame (smooth s) margin);
  emit (EvSend img);;
  emit EvPace.

(** Lines 594-680: a frame was read. *)
Definition process_frame (w : world) (frame : shape) : loopM unit :=
  let cfg := w_cfg w in
  s ← get_state;
  set_frame_idx (frame_idx s + 1);;
  orientation ← lift_res (subscript cfg "orientation");
  let frame := apply_orientation frame orientation in
  det_n ← lift_res (v ← subscript cfg "detection_every_n_frames";
                    n ← py_int v; mret (Z.max 1 n));
  alpha ← lift_res (v ← subscript cfg "smoothing_alpha"; py_float v);
  margin ← lift_res (v ← subscript cfg "margin_factor"; py_float v);
  detect w det_n alpha;;
  send_frame frame margin.

Definition camera_loop_body (w : world) : loopM unit :=
  let cfg := w_cfg w in
  cam ← lift_res (subscript cfg "camera_index");
  s ← get_state;
  (if negb (py_eq cam (current_cam_index s))
   then switch_camera w cam
   else mret tt);;
  s ← get_state;
  match cap s with
  | None => emit (EvSleep 100);; continue
  | Some _ =>
      match w_read w with
      | None => emit (EvSleep 50);; continue
      | Some frame => process_frame w frame
      end
  end.

(** State and trace after one iteration started in [s]. *)
Definition iterate (w : world) (s : loop_state)
  : loop_state * list event * flow unit :=
  camera_loop_body w s [].

(** The variables as [camera_loop] initialises them. *)
Definition initial_state : loop_state :=
  {| smooth := None; frame_idx := 0; current_cam_index := VNone; cap := None |}.

(** The loop over a finite supply of answers from the world: it stops at
    the first exception, which [camera_loop] logs before it returns.  The
    virtual camera is taken as opened. *)
Fixpoint camera_loop (ws : list world) (s : loop_state) (t : list event)
  : loop_state * list event * option pyexn :=
  match ws with
  | [] => (s, t, None)
  | w :: ws' =>
      match camera_loop_body w s t with
      | (s', t', Raised e) => (s', t', Some e)
      | (s', t', _) => camera_loop ws' s' t'
      end
  end.

End loop.

(** An interpretation of the string parsers under which no string is a
    number; it is used to evaluate the code on payloads that carry
    numbers as numbers. *)
Definition no_numeric_strings : PyLiterals :=
  {| int_of_str := λ _, None; float_of_str := λ _, None |}.

(** ** Sample inputs *)

(** The store of a process that found no configuration file. *)
Definition store0 : store := {| config := default_config; config_file := None |}.

Definition payload_typed : dict :=
  <["orientation" := VStr "cw"]> (<["margin_factor" := VFloat 0x1p-1%float]> ∅).

Definition payload_mixed : dict :=
  <["orientation" := VStr "up"]> (<["detection_every_n_frames" := VInt (-5)]> ∅).

(** The store once camera 2 is selected. *)
Definition store_cam2 : store :=
  {| config := <["camera_index" := VInt 2]> default_config; config_file := None |}.

Definition frame_vga : shape := {| rows := 480; cols := 640 |}.

(** Camera 1 selected, everything else at its default. *)
Definition config_cam1 : dict := <["camera_index" := VInt 1]> default_config.

(** A face of 100x100 pixels centred at (320, 240). *)
Definition face_center_vga : box := (270, 190, 100, 100).

Definition world_none : world :=
  {| w_cfg := config_cam1; w_open_exn := None; w_open_ok := true;
     w_read := Some frame_vga; w_faces := Ok [face_center_vga] |}.

(** The same world after a POST of [orientation = "cw"]. *)
Definition world_cw : world :=
  {| w_cfg := <["orientation" := VStr "cw"]> config_cam1;
     w_open_exn := None; w_open_ok := true;
     w_read := Some frame_vga; w_faces := Ok [face_center_vga] |}.

Definition estimate_vga : estimate float :=
  {| smooth_cx := 320%float; smooth_cy := 240%float; smooth_size := 100%float |}.

(** The loop's variables after ten frames of [world_none]. *)
Definition state_tracking : loop_state :=
  {| smooth := Some estimate_vga; frame_idx := 10;
     current_cam_index := VInt 1; cap := Some (VInt 1) |}.

Definition is_device_event (ev : event) : bool :=
  match ev with
  | EvOpen _ | EvRelease _ => true
  | _ => false
  end.

Definition float_2_806 : float := 0x1.672b020c49ba6p+1%float.
Definition float_1e308 : float := 0x1.1ccf385ebc8ap+1023%float.




Definition frame_tiny : shape := {| rows := 40; cols := 40 |}.

(** The store after a client on Linux has posted [camera_index = 0]. *)
Definition store_cam0 : store :=
  fst (@api_config_post no_numeric_strings true (<["camera_index" := VInt 0]> ∅) store0).

(** ** The [/api/cameras] handler *)

(** [str(v)], which the f-string applies to the index. *)
Class PyFormat : Type := {
  py_str : pyval → string;
}.

(** One element of the ["cameras"] list of the response. *)
Record camera_entry : Type := {
  entry_index : pyval;
  entry_label : string;
}.

Section cameras.
Context `{PyFormat}.
Variable opens : Z → bool.
Variable reads : Z → bool.

Definition camera_label (current_idx i : pyval) : string :=
  ("Camera " +:+ py_str i)
  +:+ (if py_eq i current_idx then " (current)" else "").

(** GET [/api/cameras]; [list_cameras()] runs with its default of 10. *)
Definition api_cameras (linux : bool) (st : store) : list camera_entry :=
  let cams := list_cameras opens reads linux st 10 in
  let cfg := get_config st in
  let current_idx := default VNone (cfg !! "camera_index") in
  (λ i, {| entry_index := i; entry_label := camera_label current_idx i |}) <$> cams.

End cameras.

(** ** Values the data model allows in a field

    What the handler's checks and floors let through, as predicates on
    the stored value; a key outside the five is not constrained. *)
Definition in_range (k : string) (x : pyval) : Prop :=
  if String.eqb k "camera_index" then x = VNone ∨ isinstance_int x = true
  else if String.eqb k "orientation"
       then x = VStr "none" ∨ x = VStr "cw" ∨ x = VStr "ccw"
  else if String.eqb k "detection_every_n_frames" then ∃ n, x = VInt n ∧ 1 ≤ n
  else if String.eqb k "smoothing_alpha"
       then ∃ a, x = VFloat a ∧ PrimFloat.leb a 0 = false
  else if String.eqb k "margin_factor"
       then ∃ m, x = VFloat m ∧ PrimFloat.ltb m 1 = false
  else True.

Definition all_in_range (cfg : dict) : Prop :=
  ∀ k x, cfg !! k = Some x → in_range k x.

(** What [load_persisted_config] does to the merged dict on Linux. *)
Definition clear_loopback (linux : bool) (cfg : dict) : dict :=
  if linux && py_eq (default VNone (cfg !! "camera_index")) (VInt 0)
  then <["camera_index" := VNone]> cfg
  else cfg.

(** The indices [list_cameras] takes from the probed range: the one in
    use, and those that open and deliver a frame. *)
Definition usable (opens reads : Z → bool) (current_idx : pyval) (i : Z) : bool :=
  (negb (is_none current_idx) && py_eq (VInt i) current_idx)
  || (opens i && reads i).

(** The capture handle, when there is one, belongs to the index the loop
    has recorded, which is not [None]. *)
Definition handle_matches (s : loop_state) : Prop :=
  match cap s with
  | Some d => d = current_cam_index s ∧ is_none d = false
  | None => True
  end.

Definition is_send_640 (ev : event) : Prop :=
  ∀ img, ev = EvSend img → img = {| rows := OUT_H; cols := OUT_W |}.

(** ** More sample inputs *)

Definition payload_overflow : dict :=
  <["orientation" := VStr "cw"]>
    (<["detection_every_n_frames" := VFloat infinity]> ∅).

Definition payload_unknown : dict := <["zoom" := VInt 3]> ∅.

Definition plain_format : PyFormat := {| py_str := λ _, "?" |}.

(** The world of a process in which nothing is selected. *)
Definition world_idle : world :=
  {| w_cfg := default_config; w_open_exn := None; w_open_ok := true;
     w_read := Some frame_vga; w_faces := Ok [] |}.

(** Camera 2 gets selected while camera 1 is running. *)
Definition world_cam2 : world :=
  {| w_cfg := <["camera_index" := VInt 2]> default_config;
     w_open_exn := None; w_open_ok := true;
     w_read := Some frame_vga; w_faces := Ok [face_center_vga] |}.

(** The index [2^31] gets selected while camera 1 is running;
    [cv2.VideoCapture] does not take it. *)
Definition world_cam_huge : world :=
  {| w_cfg := <["camera_index" := VInt (2 ^ 31)]> default_config;
     w_open_exn := Some Cv2Error; w_open_ok := false;
     w_read := None; w_faces := Ok [] |}.

(** Camera 1, whose read fails. *)
Definition world_no_frame : world :=
  {| w_cfg := config_cam1; w_open_exn := None; w_open_ok := true;
     w_read := None; w_faces := Ok [] |}.

(** Camera 1 with a [smoothing_alpha] that only a hand-edited file can
    hold. *)
Definition world_bad_alpha : world :=
  {| w_cfg := <["smoothing_alpha" := VStr "fast"]> config_cam1;
     w_open_exn := None; w_open_ok := true;
     w_read := Some frame_vga; w_faces := Ok [] |}.

(** * Properties *)

(** ** Configuration store *)

Lemma assign_known_lookup (d cfg : dict) (k : string) :
  assign_known d cfg !! k = (λ old, default old (d !! k)) <$> (cfg !! k).
Proof.
  unfold assign_known.
  apply (map_fold_weak_ind
           (λ (acc m : dict), acc !! k = (λ old, default old (m !! k)) <$> (cfg !! k))).
  - rewrite lookup_empty. by destruct (cfg !! k).
  - intros i x m r Hi IH.
    destruct (decide (i = k)) as [->|Hne].
    + rewrite lookup_insert_eq. rewrite Hi in IH.
      case_decide as Hr.
      * rewrite lookup_insert_eq. destruct (cfg !! k); [done|].
        simpl in IH. rewrite IH in Hr. by destruct Hr.
      * rewrite IH. destruct (cfg !! k) as [old|] eqn:E; [|done].
        exfalso. apply Hr. rewrite IH. by eexists.
    + rewrite (lookup_insert_ne m) by done.
      case_decide; [by rewrite lookup_insert_ne|done].
Qed.

Lemma assign_known_dom (d cfg : dict) : dom (assign_known d cfg) = dom cfg.
Proof.
  apply set_eq. intros k. rewrite !elem_of_dom, assign_known_lookup.
  destruct (cfg !! k); simpl; split; intros [? ?]; by eauto.
Qed.

Lemma default_config_keys (cfg : dict) (k : string) :
  dom cfg = dom default_config →
  is_Some (cfg !! k) ↔
    k = "camera_index" ∨ k = "orientation" ∨ k = "detection_every_n_frames"
    ∨ k = "smoothing_alpha" ∨ k = "margin_factor".
Proof.
  intros Hd. rewrite <- elem_of_dom, Hd. unfold default_config.
  rewrite !dom_insert_L, dom_empty_L. set_solver.
Qed.

Lemma persist_config_config (disk_ok : bool) (st : store) :
  config (persist_config disk_ok st) = config st.
Proof. unfold persist_config. by destruct disk_ok. Qed.

Lemma update_config_lookup (disk_ok : bool) (changes : dict) (st : store) (k : string) :
  config (update_config disk_ok changes st) !! k
  = (λ old, default old (changes !! k)) <$> (config st !! k).
Proof.
  unfold update_config. rewrite persist_config_config. simpl.
  apply assign_known_lookup.
Qed.

Lemma assign_known_same_keys (d cfg : dict) :
  dom d = dom cfg → assign_known d cfg = d.
Proof.
  intros Hd. apply map_eq. intros k. rewrite assign_known_lookup.
  destruct (cfg !! k) as [old|] eqn:Ec; simpl.
  - assert (is_Some (d !! k)) as [v Hv].
    { apply elem_of_dom. rewrite Hd. apply elem_of_dom. by eexists. }
    by rewrite Hv.
  - symmetry. apply not_elem_of_dom. rewrite Hd. by apply not_elem_of_dom.
Qed.

(** Loading keeps the configuration's set of keys: the Linux rule only
    overwrites a [camera_index] that is there. *)
Lemma load_persisted_config_keys (linux : bool) (st : store) :
  dom (config (load_persisted_config linux st)) = dom (config st).
Proof.
  unfold load_persisted_config. destruct (config_file st) as [data|]; [|done].
  simpl. destruct (linux && py_eq _ _) eqn:Hclear; [|apply assign_known_dom].
  rewrite dom_insert_L, assign_known_dom.
  apply andb_true_iff in Hclear as [_ Hz].
  destruct (assign_known data (config st) !! "camera_index") as [v|] eqn:Ev; [|done].
  assert ("camera_index" ∈ dom (config st)).
  { rewrite <- (assign_known_dom data). apply elem_of_dom. by eexists. }
  set_solver.
Qed.

(** C10: [update_config] stores whatever value comes with a key the
    configuration already has, of any type and range, and ignores the
    other keys; [load_persisted_config] copies the file's values the same
    way and then only clears a [camera_index] equal to 0 on Linux; without
    a file the configuration stays as it is. *)
Theorem store_keeps_values_verbatim :
  (∀ (disk_ok : bool) (changes : dict) (st : store) (k : string),
      config (update_config disk_ok changes st) !! k
      = (λ old, default old (changes !! k)) <$> (config st !! k))
  ∧ (∀ (linux : bool) (cfg data : dict) (k : string),
      config (load_persisted_config linux
                {| config := cfg; config_file := Some data |}) !! k
      = if linux
           && py_eq (default VNone (assign_known data cfg !! "camera_index")) (VInt 0)
           && bool_decide (k = "camera_index")
        then Some VNone
        else (λ old, default old (data !! k)) <$> (cfg !! k))
  ∧ (∀ (linux : bool) (cfg : dict),
      config (load_persisted_config linux
                {| config := cfg; config_file := None |}) = cfg).
Proof.
  split; [exact update_config_lookup|]. split; [|done].
  intros linux cfg data k. unfold load_persisted_config. simpl.
  destruct (linux && py_eq _ _) eqn:Hclear; simpl.
  - case_bool_decide as Hk.
    + subst k. by rewrite lookup_insert_eq.
    + rewrite lookup_insert_ne by done. apply assign_known_lookup.
  - apply assign_known_lookup.
Qed.

(** C7: a snapshot with the five fields that is written to the file and
    loaded by a new process comes back identical, except that on Linux a
    [camera_index] equal to 0 comes back as [None]. *)
Theorem persist_then_restart (linux : bool) (st : store) :
  dom (config st) = dom default_config →
  config (restart linux (persist_config true st))
  = if linux && py_eq (default VNone (config st !! "camera_index")) (VInt 0)
    then <["camera_index" := VNone]> (config st)
    else config st.
Proof.
  intros Hd. unfold restart, persist_config, load_persisted_config. simpl.
  by rewrite (assign_known_same_keys (config st) default_config).
Qed.

Lemma persist_then_restart_witness :
  config (restart true (persist_config true
            {| config := <["camera_index" := VInt 2]> default_config;
               config_file := None |})) !! "camera_index"
  = Some (VInt 2).
Proof.
  rewrite persist_then_restart.
  - reflexivity.
  - simpl. unfold default_config. rewrite !dom_insert_L. set_solver.
Defined.

(** C7, as stated, fails on Linux for the snapshot a POST of
    [camera_index = 0] leaves behind: the new process has [None] there. *)
Lemma persist_then_restart_clears_index_0 :
  ¬ (config (restart true (persist_config true store_cam0)) = config store_cam0).
Proof.
  intros Heq. apply (f_equal (λ m : dict, m !! "camera_index")) in Heq.
  vm_compute in Heq. discriminate.
Qed.

(** ** The [/api/config] handler *)

Ltac res_simpl :=
  unfold mbind, res_mbind, res_bind, mret, res_mret in *; simpl in *.

Ltac res_step :=
  unfold mbind, res_mbind, res_bind, mret, res_mret in *; cbn beta iota in *.

Section api_facts.
Context `{PyLiterals}.

Lemma collect_field_lookup k check (data changes changes' : dict) (j : string) :
  collect_field k check data changes = Ok changes' →
  changes' !! j
  = if decide (j = k)
    then match data !! k with
         | Some v => match check v with
                     | Ok (Some x) => Some x
                     | _ => changes !! j
                     end
         | None => changes !! j
         end
    else changes !! j.
Proof.
  unfold collect_field. intros Hc.
  destruct (data !! k) as [v|]; res_simpl.
  - destruct (check v) as [[x|]|e]; inversion Hc; subst.
    + case_decide as Hj; [subst; by rewrite lookup_insert_eq|].
      by rewrite lookup_insert_ne.
    + by case_decide.
  - inversion Hc; subst. by case_decide.
Qed.

Lemma collect_field_raises k check (data changes : dict) (e : pyexn) :
  collect_field k check data changes = Raise e →
  ∃ v, data !! k = Some v ∧ check v = Raise e.
Proof.
  unfold collect_field. destruct (data !! k) as [v|]; res_simpl; [|done].
  destruct (check v) as [o|e'] eqn:Ec; [done|].
  intros [= ->]. by exists v.
Qed.

Lemma field_check_other (k : string) (v : pyval) :
  k ≠ "camera_index" → k ≠ "orientation" → k ≠ "detection_every_n_frames" →
  k ≠ "smoothing_alpha" → k ≠ "margin_factor" →
  field_check k v = Ok None.
Proof.
  intros N1 N2 N3 N4 N5. unfold field_check.
  by rewrite !(proj2 (String.eqb_neq _ _)) by done.
Qed.

Lemma collect_changes_lookup (data changes : dict) (k : string) :
  collect_changes data = Ok changes →
  changes !! k = data !! k ≫= written k.
Proof.
  unfold collect_changes. intros Hc.
  destruct (collect_field "camera_index" _ data ∅) as [c1|] eqn:E1;
    res_simpl; [|done].
  destruct (collect_field "orientation" _ data c1) as [c2|] eqn:E2;
    res_simpl; [|done].
  destruct (collect_field "detection_every_n_frames" _ data c2) as [c3|] eqn:E3;
    res_simpl; [|done].
  destruct (collect_field "smoothing_alpha" _ data c3) as [c4|] eqn:E4;
    res_simpl; [|done].
  rewrite (collect_field_lookup _ _ _ _ _ k Hc).
  rewrite (collect_field_lookup _ _ _ _ _ k E4).
  rewrite (collect_field_lookup _ _ _ _ _ k E3).
  rewrite (collect_field_lookup _ _ _ _ _ k E2).
  rewrite (collect_field_lookup _ _ _ _ _ k E1).
  rewrite lookup_empty. clear.
  destruct (decide (k = "margin_factor")) as [->|N5].
  { destruct (data !! _) as [v|]; [|done]. cbn [mbind option_bind].
    unfold written. change (field_check "margin_factor" v) with (check_margin v).
    by destruct (check_margin v) as [[?|]|?]. }
  destruct (decide (k = "smoothing_alpha")) as [->|N4].
  { destruct (data !! _) as [v|]; [|done]. cbn [mbind option_bind].
    unfold written. change (field_check "smoothing_alpha" v) with (check_alpha v).
    by destruct (check_alpha v) as [[?|]|?]. }
  destruct (decide (k = "detection_every_n_frames")) as [->|N3].
  { destruct (data !! _) as [v|]; [|done]. cbn [mbind option_bind].
    unfold written. change (field_check "detection_every_n_frames" v) with (check_detection v).
    by destruct (check_detection v) as [[?|]|?]. }
  destruct (decide (k = "orientation")) as [->|N2].
  { destruct (data !! _) as [v|]; [|done]. cbn [mbind option_bind].
    unfold written. change (field_check "orientation" v) with (check_orientation v).
    by destruct (check_orientation v) as [[?|]|?]. }
  destruct (decide (k = "camera_index")) as [->|N1].
  { destruct (data !! _) as [v|]; [|done]. cbn [mbind option_bind].
    unfold written. change (field_check "camera_index" v) with (check_camera_index v).
    by destruct (check_camera_index v) as [[?|]|?]. }
  destruct (data !! k) as [v|]; [|done]. cbn [mbind option_bind].
  unfold written. by rewrite field_check_other.
Qed.

Lemma collect_field_total k check (data changes : dict) :
  (∀ v, data !! k = Some v → is_ok (check v)) →
  is_ok (collect_field k check data changes).
Proof.
  intros Hok. destruct (collect_field k check data changes) as [c|e] eqn:E; [done|].
  apply collect_field_raises in E as (v & Hv & Hr).
  apply Hok in Hv. by rewrite Hr in Hv.
Qed.

Lemma collect_changes_total (data : dict) :
  (∀ k v, data !! k = Some v → is_ok (field_check k v)) →
  is_ok (collect_changes data).
Proof.
  intros Hok. unfold collect_changes.
  pose proof (collect_field_total "camera_index" check_camera_index data ∅
                (Hok "camera_index")) as H1.
  destruct (collect_field "camera_index" _ data ∅) as [c1|]; [|done]. res_simpl.
  pose proof (collect_field_total "orientation" check_orientation data c1
                (Hok "orientation")) as H2.
  destruct (collect_field "orientation" _ data c1) as [c2|]; [|done]. res_simpl.
  pose proof (collect_field_total "detection_every_n_frames" check_detection data c2
                (Hok "detection_every_n_frames")) as H3.
  destruct (collect_field "detection_every_n_frames" _ data c2) as [c3|]; [|done].
  res_simpl.
  pose proof (collect_field_total "smoothing_alpha" check_alpha data c3
                (Hok "smoothing_alpha")) as H4.
  destruct (collect_field "smoothing_alpha" _ data c3) as [c4|]; [|done]. res_simpl.
  apply (collect_field_total "margin_factor" check_margin data c4
           (Hok "margin_factor")).
Qed.

(** The handler on a payload none of whose fields raises past the
    [except] clauses: it answers with the new snapshot, in which a field
    holds what its block decided to write and otherwise its old value. *)
Lemma api_config_post_lookup (disk_ok : bool) (data : dict) (st : store) :
  (∀ k v, data !! k = Some v → is_ok (field_check k v)) →
  ∃ st', api_config_post disk_ok data st = (st', Ok (get_config st'))
         ∧ ∀ k, config st' !! k
                = (λ old, default old (data !! k ≫= written k)) <$> (config st !! k).
Proof.
  intros Hok. unfold api_config_post.
  pose proof (collect_changes_total data Hok) as Ht.
  destruct (collect_changes data) as [changes|e] eqn:Ec; [|done].
  eexists. split; [reflexivity|]. intros k.
  rewrite <- (collect_changes_lookup data changes k Ec).
  destruct (Nat.eqb_spec (size changes) 0) as [Hz|Hnz].
  - apply map_size_empty_inv in Hz. subst changes. rewrite lookup_empty.
    by destruct (config st !! k).
  - apply update_config_lookup.
Qed.

End api_facts.

Section api_claims.
Context `{PyLiterals}.

Lemma py_int_raises (v : pyval) (e : pyexn) :
  py_int v = Raise e → e = TypeError ∨ e = ValueError ∨ e = OverflowError.
Proof.
  destruct v as [| | |f|s|]; simpl; try (intros [= <-]; by eauto).
  - unfold Float64.trunc, Float64.to_int_with.
    destruct (Prim2SF f); intros [= <-]; by eauto.
  - destruct (int_of_str s); intros [= <-]; by eauto.
Qed.

Lemma py_float_raises (v : pyval) (e : pyexn) :
  py_float v = Raise e → e = TypeError ∨ e = ValueError ∨ e = OverflowError.
Proof.
  destruct v as [| |z| |s|]; simpl; try (intros [= <-]; by eauto).
  - unfold Float64.of_int. destruct (is_infinity _); intros [= <-]; by eauto.
  - destruct (float_of_str s); intros [= <-]; by eauto.
Qed.

Lemma except_type_value_raises {A} (r : res A) (e : pyexn) :
  (∀ e', r = Raise e' → e' = TypeError ∨ e' = ValueError ∨ e' = OverflowError) →
  except_type_value r = Raise e → e = OverflowError ∧ r = Raise OverflowError.
Proof.
  intros Hr. destruct r as [a|e']; [done|].
  destruct (Hr e' eq_refl) as [->|[->| ->]]; simpl; try done.
  by intros [= <-].
Qed.

Lemma field_check_raises (k : string) (v : pyval) (e : pyexn) :
  field_check k v = Raise e →
  e = OverflowError
  ∧ ((k = "detection_every_n_frames" ∧ py_int v = Raise OverflowError)
     ∨ ((k = "smoothing_alpha" ∨ k = "margin_factor")
        ∧ py_float v = Raise OverflowError)).
Proof.
  unfold field_check.
  destruct (String.eqb_spec k "camera_index"); [done|].
  destruct (String.eqb_spec k "orientation"); [done|].
  destruct (String.eqb_spec k "detection_every_n_frames") as [->|].
  { unfold check_detection.
    destruct (except_type_value (py_int v)) as [o|e'] eqn:E; res_simpl; [done|].
    intros [= ->].
    apply except_type_value_raises in E as [-> ?]; [by eauto|apply py_int_raises]. }
  destruct (String.eqb_spec k "smoothing_alpha") as [->|].
  { unfold check_alpha.
    destruct (except_type_value (py_float v)) as [o|e'] eqn:E; res_simpl; [done|].
    intros [= ->].
    apply except_type_value_raises in E as [-> ?]; [by eauto 6|apply py_float_raises]. }
  destruct (String.eqb_spec k "margin_factor") as [->|]; [|done].
  unfold check_margin.
  destruct (except_type_value (py_float v)) as [o|e'] eqn:E; res_simpl; [done|].
  intros [= ->].
  apply except_type_value_raises in E as [-> ?]; [by eauto 6|apply py_float_raises].
Qed.

Lemma no_overflow_checks (data : dict) :
  no_overflow data → ∀ k v, data !! k = Some v → is_ok (field_check k v).
Proof.
  intros (Hd & Ha & Hm) k v Hk.
  destruct (field_check k v) as [o|e] eqn:E; [done|].
  apply field_check_raises in E as [-> [[-> Hr]|[[->| ->] Hr]]].
  - by apply Hd in Hk.
  - by apply Ha in Hk.
  - by apply Hm in Hk.
Qed.

Lemma clamp_detection_max (n : Z) : clamp_detection n = Z.max 1 n.
Proof. unfold clamp_detection. destruct (Z.ltb_spec n 1); lia. Qed.

Lemma well_typed_written (k : string) (v : pyval) :
  well_typed k v →
  field_check k v = Ok (written k v)
  ∧ (k = "camera_index" ∨ k = "orientation" ∨ k = "detection_every_n_frames"
     ∨ k = "smoothing_alpha" ∨ k = "margin_factor" →
     written k v = Some (coerced k v)).
Proof.
  unfold well_typed, written.
  destruct (String.eqb_spec k "camera_index") as [->|N1].
  { intros [i ->]. split; [|intros _]; reflexivity. }
  destruct (String.eqb_spec k "orientation") as [->|N2].
  { intros [->|[->| ->]]; (split; [|intros _]; reflexivity). }
  destruct (String.eqb_spec k "detection_every_n_frames") as [->|N3].
  { intros [n ->]. change (field_check _ _) with (check_detection (VInt n)).
    unfold check_detection, coerced. res_simpl.
    rewrite clamp_detection_max. by split. }
  destruct (String.eqb_spec k "smoothing_alpha") as [->|N4].
  { intros [a ->]. split; [|intros _]; reflexivity. }
  destruct (String.eqb_spec k "margin_factor") as [->|N5].
  { intros [a ->]. split; [|intros _]; reflexivity. }
  intros _. rewrite field_check_other by done.
  split; [done|]. intros [?|[?|[?|[?|?]]]]; done.
Qed.

(** C5: a POST whose submitted fields have the types of the data model,
    followed by a GET, shows every submitted field at its submitted value
    after the table's coercion, and every other field at its old value. *)
Theorem api_update_then_get (disk_ok : bool) (data : dict) (st : store) :
  dom (config st) = dom default_config →
  (∀ k v, data !! k = Some v → well_typed k v) →
  ∃ st' snapshot,
    api_config_post disk_ok data st = (st', Ok (get_config st'))
    ∧ api_config_get st' = (st', Ok snapshot)
    ∧ ∀ k, snapshot !! k
           = (λ old, match data !! k with
                     | Some v => coerced k v
                     | None => old
                     end) <$> (config st !! k).
Proof.
  intros Hdom Hty.
  destruct (api_config_post_lookup disk_ok data st) as (st' & Hpost & Hlook).
  { intros k v Hk. apply Hty, well_typed_written in Hk as [-> _]. done. }
  exists st', (get_config st'). split; [done|]. split; [done|].
  intros k. unfold get_config. rewrite Hlook.
  destruct (config st !! k) as [old|] eqn:Eold; [|done]. simpl. f_equal.
  destruct (data !! k) as [v|] eqn:Ek; [|done]. simpl.
  apply Hty, well_typed_written in Ek as [_ Hw].
  rewrite Hw; [done|]. apply (default_config_keys (config st)); [done|].
  by eexists.
Qed.

Lemma written_rules :
  (∀ v, written "camera_index" v = if isinstance_int v then Some v else None)
  ∧ (∀ v, written "orientation" v = if py_in v orientations then Some v else None)
  ∧ (∀ v n, py_int v = Ok n →
       written "detection_every_n_frames" v = Some (VInt (Z.max 1 n)))
  ∧ (∀ v, py_int v = Raise TypeError ∨ py_int v = Raise ValueError →
       written "detection_every_n_frames" v = None)
  ∧ (∀ v a, py_float v = Ok a →
       written "smoothing_alpha" v = Some (VFloat (clamp_alpha a))
       ∧ written "margin_factor" v = Some (VFloat (clamp_margin a)))
  ∧ (∀ v, py_float v = Raise TypeError ∨ py_float v = Raise ValueError →
       written "smoothing_alpha" v = None ∧ written "margin_factor" v = None).
Proof.
  unfold written.
  change (field_check "camera_index") with check_camera_index.
  change (field_check "orientation") with check_orientation.
  change (field_check "detection_every_n_frames") with check_detection.
  change (field_check "smoothing_alpha") with check_alpha.
  change (field_check "margin_factor") with check_margin.
  unfold check_camera_index, check_orientation, check_detection, check_alpha,
    check_margin.
  split; [done|]. split; [done|].
  split. { intros v n ->. res_simpl. by rewrite clamp_detection_max. }
  split. { by intros v [-> | ->]. }
  split. { by intros v a ->. }
  by intros v [-> | ->].
Qed.

(** C6: when no submitted number overflows its conversion, the POST does
    not fail and answers with the full new snapshot; a field whose value
    does not pass its check ([camera_index] not an integer, [orientation]
    not one of the three names, a number that [int] or [float] rejects
    with [TypeError] or [ValueError]) keeps its old value, and every other
    submitted field is written, numbers below their floor being raised to
    it: a [detection_every_n_frames] below 1 is stored as 1. *)
Theorem api_drops_or_clamps (disk_ok : bool) (data : dict) (st : store) :
  no_overflow data →
  ∃ st',
    api_config_post disk_ok data st = (st', Ok (get_config st'))
    ∧ (∀ k, config st' !! k
            = (λ old, default old (data !! k ≫= written k)) <$> (config st !! k))
    ∧ (∀ v, written "camera_index" v = if isinstance_int v then Some v else None)
    ∧ (∀ v, written "orientation" v = if py_in v orientations then Some v else None)
    ∧ (∀ v n, py_int v = Ok n →
         written "detection_every_n_frames" v = Some (VInt (Z.max 1 n)))
    ∧ (∀ v, py_int v = Raise TypeError ∨ py_int v = Raise ValueError →
         written "detection_every_n_frames" v = None)
    ∧ (∀ v a, py_float v = Ok a →
         written "smoothing_alpha" v = Some (VFloat (clamp_alpha a))
         ∧ written "margin_factor" v = Some (VFloat (clamp_margin a)))
    ∧ (∀ v, py_float v = Raise TypeError ∨ py_float v = Raise ValueError →
         written "smoothing_alpha" v = None ∧ written "margin_factor" v = None).
Proof.
  intros Hno.
  destruct (api_config_post_lookup disk_ok data st) as (st' & Hpost & Hlook).
  { by apply no_overflow_checks. }
  exists st'. split; [done|]. split; [done|]. apply written_rules.
Qed.

(** The handler keeps the configuration's set of keys. *)
Lemma api_config_post_keys (disk_ok : bool) (data : dict) (st : store) :
  dom (config (api_config_post disk_ok data st).1) = dom (config st).
Proof.
  unfold api_config_post. destruct (collect_changes data) as [changes|]; [|done].
  simpl. destruct (size changes =? 0)%nat; [done|].
  unfold update_config. rewrite persist_config_config. apply assign_known_dom.
Qed.

End api_claims.

Lemma api_update_then_get_witness :
  ∃ st' snapshot,
    @api_config_post no_numeric_strings true payload_typed store0
    = (st', Ok (get_config st'))
    ∧ api_config_get st' = (st', Ok snapshot)
    ∧ ∀ k, snapshot !! k
           = (λ old, match payload_typed !! k with
                     | Some v => coerced k v
                     | None => old
                     end) <$> (config store0 !! k).
Proof.
  apply (@api_update_then_get no_numeric_strings true payload_typed store0).
  - reflexivity.
  - intros k v Hk. unfold payload_typed in Hk.
    apply lookup_insert_Some in Hk as [[<- <-]|[_ Hk]].
    { vm_compute. auto. }
    apply lookup_insert_Some in Hk as [[<- <-]|[_ Hk]].
    { vm_compute. eauto. }
    by rewrite lookup_empty in Hk.
Defined.

Lemma api_drops_or_clamps_witness :
  ∃ st',
    @api_config_post no_numeric_strings true payload_mixed store0
    = (st', Ok (get_config st'))
    ∧ config st' !! "orientation" = Some (VStr "none")
    ∧ config st' !! "detection_every_n_frames" = Some (VInt 1).
Proof.
  destruct (@api_drops_or_clamps no_numeric_strings true payload_mixed store0)
    as (st' & Hpost & Hlook & _).
  - repeat split; intros v Hv; unfold payload_mixed in Hv;
      repeat (apply lookup_insert_Some in Hv as [[? <-]|[_ Hv]]; [done|]);
      by rewrite lookup_empty in Hv.
  - exists st'. split; [exact Hpost|]. rewrite !Hlook. split; reflexivity.
Defined.

(** C6, as stated, fails for a negative [detection_every_n_frames]: the
    field is not dropped, it is stored as 1. *)
Lemma api_negative_interval_not_dropped :
  ¬ (config (fst (@api_config_post no_numeric_strings true payload_mixed store0))
       !! "detection_every_n_frames"
     = config store0 !! "detection_every_n_frames").
Proof. vm_compute. discriminate. Qed.

(** ** Camera probing *)

Section probing_facts.
Variables opens reads : Z → bool.

Lemma probe_step_elems (cur : pyval) (start : Z) (cams : list pyval) (i : Z) :
  start ≤ i →
  Forall (λ v, ∃ j, v = VInt j ∧ start ≤ j) cams →
  Forall (λ v, ∃ j, v = VInt j ∧ start ≤ j) (probe_step opens reads cur cams i).
Proof.
  intros Hi Hc. unfold probe_step.
  assert (Forall (λ v, ∃ j, v = VInt j ∧ start ≤ j) (cams ++ [VInt i])) as Happ.
  { apply Forall_app. split; [done|]. constructor; [by eauto|constructor]. }
  repeat case_match; done.
Qed.

Lemma probe_fold_elems (cur : pyval) (start : Z) (l : list Z) (cams : list pyval) :
  Forall (λ i, start ≤ i) l →
  Forall (λ v, ∃ j, v = VInt j ∧ start ≤ j) cams →
  Forall (λ v, ∃ j, v = VInt j ∧ start ≤ j)
         (foldl (probe_step opens reads cur) cams l).
Proof.
  revert cams. induction l as [|i l IH]; intros cams Hl Hc; simpl; [done|].
  inversion Hl; subst. apply IH; [done|]. by apply probe_step_elems.
Qed.

(** C3: the result of the enumeration holds the selected camera index,
    once one is set, whatever the probes answer; on Linux an entry equal
    to the reserved index 0 can only be the selected index itself, so the
    result is free of 0 unless 0 is what is selected. *)
Theorem list_cameras_selected_and_reserved (linux : bool) (st : store) (max_index : Z) :
  let cur := default VNone (get_config st !! "camera_index") in
  let cams := list_cameras opens reads linux st max_index in
  (is_none cur = false → Exists (λ v, v = cur ∨ py_eq v cur = true) cams)
  ∧ (linux = true →
     Forall (λ v, py_eq v (VInt 0) = true → v = cur ∧ is_none cur = false) cams).
Proof.
  intros cur cams. subst cams. unfold list_cameras. fold cur.
  set (start := if linux then 1 else 0).
  set (found := foldl (probe_step opens reads cur) [] (seqZ start (max_index - start))).
  split.
  - intros Hset. rewrite Hset. simpl.
    destruct (py_in cur found) eqn:Hin; simpl.
    + unfold py_in in Hin. apply existsb_exists in Hin as (v & Hv & Heq).
      apply Exists_exists. exists v. split; [by apply list_elem_of_In|by right].
    + apply Exists_app. right. constructor. by left.
  - intros ->. subst start.
    assert (Forall (λ v, ∃ j, v = VInt j ∧ 1 ≤ j) found) as Hfound.
    { apply probe_fold_elems; [|constructor].
      apply Forall_forall. intros i Hi. apply elem_of_seqZ in Hi. lia. }
    assert (Forall (λ v, py_eq v (VInt 0) = true → v = cur ∧ is_none cur = false)
              found) as Hfree.
    { eapply Forall_impl; [exact Hfound|]. intros v (j & -> & Hj). simpl.
      intros Hz. apply Z.eqb_eq in Hz. lia. }
    destruct (negb (is_none cur) && negb (py_in cur found)) eqn:Hadd; [|done].
    apply Forall_app. split; [done|]. constructor; [|constructor].
    intros _. split; [done|]. apply andb_true_iff in Hadd as [Hn _].
    by apply negb_true_iff in Hn.
Qed.

End probing_facts.

Lemma list_cameras_selected_and_reserved_witness :
  Exists (λ v, v = default VNone (get_config store_cam2 !! "camera_index")
               ∨ py_eq v (default VNone (get_config store_cam2 !! "camera_index"))
                 = true)
         (list_cameras (λ _, false) (λ _, false) true store_cam2 10).
Proof.
  apply (proj1 (list_cameras_selected_and_reserved
                  (λ _, false) (λ _, false) true store_cam2 10)).
  vm_compute. reflexivity.
Defined.

Lemma list_cameras_after_selecting_0 :
  list_cameras (λ _, false) (λ _, false) true store_cam0 10 = [VInt 0].
Proof. vm_compute. reflexivity. Qed.

(** C3, as stated, fails on Linux when the selected index is 0, which the
    handler accepts: the enumeration returns it. *)
Lemma list_cameras_returns_selected_0 :
  ¬ Forall (λ v, py_eq v (VInt 0) = false)
      (list_cameras (λ _, false) (λ _, false) true store_cam0 10).
Proof.
  rewrite list_cameras_after_selecting_0. intros Hall.
  apply Forall_cons in Hall as [Hhd _]. simpl in Hhd. discriminate.
Qed.

(** ** Crop planning *)

Lemma slice_len_inside (n lo s : Z) :
  0 ≤ lo → 0 ≤ s → lo + s ≤ n → slice_len n lo (lo + s) = s.
Proof.
  intros Hlo Hs Hn. unfold slice_len, slice_bound.
  destruct (Z.ltb_spec lo 0); destruct (Z.ltb_spec (lo + s) 0); lia.
Qed.

Lemma slice_len_nonneg (n lo hi : Z) : 0 ≤ slice_len n lo hi.
Proof. unfold slice_len. lia. Qed.

Lemma clamp_size_bounds (h_f w_f desired : Z) :
  50 ≤ h_f → 50 ≤ w_f →
  50 ≤ clamp_size h_f w_f desired ≤ Z.min h_f w_f.
Proof. unfold clamp_size. lia. Qed.

Lemma clamp_corner_min_max (h_f w_f size cx cy : Z) :
  clamp_corner h_f w_f size cx cy
  = (Z.min (Z.max 0 (cx - size / 2)) (w_f - size),
     Z.min (Z.max 0 (cy - size / 2)) (h_f - size)).
Proof.
  unfold clamp_corner.
  destruct (Z.ltb_spec (cx - size / 2) 0); destruct (Z.ltb_spec (cy - size / 2) 0);
    repeat match goal with
      | |- context [?a <? ?b] => destruct (Z.ltb_spec a b)
      end; f_equal; lia.
Qed.

Section crop_facts.
Context {A : Type} `{PyNumber A}.

Lemma center_square_inside (frame : shape) :
  0 ≤ rows frame → 0 ≤ cols frame →
  let s := center_square (rows frame) (cols frame) in
  0 ≤ sq_x s ∧ sq_x s + sq_size s ≤ cols frame
  ∧ 0 ≤ sq_y s ∧ sq_y s + sq_size s ≤ rows frame
  ∧ sq_size s = Z.min (rows frame) (cols frame)
  ∧ slice_square frame s = {| rows := sq_size s; cols := sq_size s |}.
Proof.
  intros Hr Hc. unfold center_square, slice_square, np_slice. simpl.
  set (size := Z.min (rows frame) (cols frame)).
  assert (0 ≤ (cols frame - size) / 2 ≤ cols frame - size) as Hx.
  { split; [apply Z.div_pos; lia|]. apply Z.div_le_upper_bound; lia. }
  assert (0 ≤ (rows frame - size) / 2 ≤ rows frame - size) as Hy.
  { split; [apply Z.div_pos; lia|]. apply Z.div_le_upper_bound; lia. }
  rewrite !slice_len_inside by lia. repeat split; lia.
Qed.

Lemma plan_square_value (h_f w_f : Z) (e : estimate A) (margin : A) (d cx cy : Z) :
  desired_size e margin = Ok d →
  num_round (smooth_cx e) = Ok cx →
  num_round (smooth_cy e) = Ok cy →
  plan_square h_f w_f e margin
  = Ok {| sq_x := Z.min (Z.max 0 (cx - clamp_size h_f w_f d / 2))
                        (w_f - clamp_size h_f w_f d);
          sq_y := Z.min (Z.max 0 (cy - clamp_size h_f w_f d / 2))
                        (h_f - clamp_size h_f w_f d);
          sq_size := clamp_size h_f w_f d |}.
Proof.
  intros Hd Hx Hy. unfold plan_square. rewrite Hd. res_step.
  rewrite Hx. res_step. rewrite Hy. res_step.
  by rewrite clamp_corner_min_max.
Qed.

Lemma plan_square_raises (h_f w_f : Z) (e : estimate A) (margin : A) (ex : pyexn) :
  plan_square h_f w_f e margin = Raise ex → ¬ convertible (Some e) margin.
Proof.
  unfold plan_square, convertible. intros Hp (Hd & Hx & Hy).
  destruct (desired_size e margin); [|done]. res_step.
  destruct (num_round (smooth_cx e)); [|done]. res_step.
  destruct (num_round (smooth_cy e)); [|done]. res_step.
  by destruct (clamp_corner _ _ _ _ _).
Qed.

(** C2: on a frame at least 50 pixels high and wide, for every estimate
    and every margin factor, the planner either raises, which it does
    exactly when [int] refuses the product of the estimate's size and the
    margin or [round] refuses a centre coordinate, or returns a square
    that lies inside the frame, with a side of at least 50 and at most
    [min(height, width)], and the slice it cuts has exactly that side in
    both dimensions.  Without an estimate it never raises. *)
Theorem crop_region_in_frame (frame : shape) (est : option (estimate A)) (margin : A) :
  50 ≤ rows frame → 50 ≤ cols frame →
  match select_crop frame est margin with
  | Ok (s, crop) =>
      convertible est margin
      ∧ 0 ≤ sq_x s ∧ sq_x s + sq_size s ≤ cols frame
      ∧ 0 ≤ sq_y s ∧ sq_y s + sq_size s ≤ rows frame
      ∧ 50 ≤ sq_size s ≤ Z.min (rows frame) (cols frame)
      ∧ crop = {| rows := sq_size s; cols := sq_size s |}
  | Raise ex => ¬ convertible est margin ∧ est ≠ None
  end.
Proof.
  intros Hr Hc. destruct est as [e|]; simpl.
  - destruct (desired_size e margin) as [d|ex] eqn:Ed;
      [|unfold plan_square; rewrite Ed; res_step; split; [tauto|done]].
    destruct (num_round (smooth_cx e)) as [cx|ex] eqn:Ex;
      [|unfold plan_square; rewrite Ed; res_step; rewrite Ex; res_step;
        split; [tauto|done]].
    destruct (num_round (smooth_cy e)) as [cy|ex] eqn:Ey;
      [|unfold plan_square; rewrite Ed; res_step; rewrite Ex; res_step;
        rewrite Ey; res_step; split; [tauto|done]].
    rewrite (plan_square_value _ _ _ _ d cx cy) by done. res_simpl.
    pose proof (clamp_size_bounds (rows frame) (cols frame) d Hr Hc) as Hs.
    set (size := clamp_size (rows frame) (cols frame) d) in *.
    unfold slice_square, np_slice. simpl.
    rewrite !slice_len_inside by lia. simpl.
    replace (np_size _ =? 0) with false
      by (symmetry; apply Z.eqb_neq; unfold np_size; simpl; nia).
    rewrite Z.eqb_refl. simpl. repeat split; try done; lia.
  - destruct (center_square_inside frame) as (? & ? & ? & ? & Hs & Hcrop); [lia..|].
    rewrite Hcrop, Hs. repeat split; try done; lia.
Qed.

(** The crop that reaches the resize step is square and not empty, and
    the step before it raises only on an estimate that is not
    convertible. *)
Lemma select_crop_square_or_raises (frame : shape) (est : option (estimate A)) (margin : A) :
  0 < rows frame → 0 < cols frame →
  match select_crop frame est margin with
  | Ok (s, crop) =>
      rows crop = cols crop ∧ 0 < rows crop
      ∧ render frame est margin = Ok {| rows := OUT_H; cols := OUT_W |}
  | Raise ex =>
      ¬ convertible est margin ∧ render frame est margin = Raise ex
  end.
Proof.
  intros Hr Hc.
  destruct (center_square_inside frame) as (_ & _ & _ & _ & Hs & Hcrop); [lia..|].
  assert (∀ s crop, select_crop frame est margin = Ok (s, crop) →
            rows crop = cols crop → 0 < rows crop →
            rows crop = cols crop ∧ 0 < rows crop
            ∧ render frame est margin = Ok {| rows := OUT_H; cols := OUT_W |})
    as Hrender.
  { intros s crop Hsel Hsq Hpos. split; [done|]. split; [done|].
    unfold render. rewrite Hsel. res_simpl. unfold cv2_resize.
    rewrite <- Hsq. by rewrite (proj2 (Z.ltb_lt 0 (rows crop))). }
  assert (render frame est margin
          = '(_, crop) ← select_crop frame est margin; cv2_resize crop OUT_W OUT_H)
    as Hrdef by done.
  unfold select_crop in Hrender, Hrdef |- *.
  destruct est as [e|].
  - destruct (plan_square (rows frame) (cols frame) e margin) as [p|ex] eqn:Hp;
      res_step.
    + destruct (_ || _) eqn:Hbad.
      * apply (Hrender _ _ eq_refl); rewrite Hcrop; simpl; lia.
      * apply orb_false_iff in Hbad as [Hne Hsq].
        apply negb_false_iff, Z.eqb_eq in Hsq. apply Z.eqb_neq in Hne.
        apply (Hrender _ _ eq_refl); [done|].
        pose proof (slice_len_nonneg (rows frame) (sq_y p) (sq_y p + sq_size p)).
        unfold np_size, slice_square, np_slice in *. simpl in *. nia.
    + split; [by eapply plan_square_raises|done].
  - res_step. apply (Hrender _ _ eq_refl); rewrite Hcrop; simpl; lia.
Qed.

End crop_facts.

(** ** The loop *)

Lemma render_shape {A : Type} `{PyNumber A} (frame : shape)
    (est : option (estimate A)) (margin : A) (img : shape) :
  render frame est margin = Ok img → img = {| rows := OUT_H; cols := OUT_W |}.
Proof.
  unfold render. destruct (select_crop frame est margin) as [[s crop]|]; [|done].
  res_step. unfold cv2_resize. destruct (_ && _); [|done]. by intros [= <-].
Qed.

Ltac loop_unfold :=
  cbv [mbind loop_mbind loop_bind mret loop_mret loop_ret
       lift_res emit continue get_state put_state
       set_cap set_smooth set_frame_idx set_current_cam_index].

Section loop_facts.
Context `{PyLiterals}.

Lemma detect_cases (w : world) (det_n : Z) (alpha : float)
    (s : loop_state) (t : list event) :
  let '(s', t', _) := detect w det_n alpha s t in
  cap s' = cap s
  ∧ current_cam_index s' = current_cam_index s
  ∧ frame_idx s' = frame_idx s
  ∧ t' = t
  ∧ (smooth s' = smooth s
     ∨ ∃ f rest,
         w_faces w = Ok (f :: rest)
         ∧ smooth s' = Some (update_estimate alpha (smooth s) (max_by_area f rest))).
Proof.
  unfold detect. loop_unfold.
  destruct (_ =? 0); [|by auto 10].
  destruct (w_faces w) as [[|f rest]|]; simpl; [by auto 10| |by auto 10].
  repeat split; try done. right. by exists f, rest.
Qed.

Lemma send_frame_cases (frame : shape) (margin : float)
    (s : loop_state) (t : list event) :
  let '(s', t', _) := send_frame frame margin s t in
  s' = s
  ∧ (t' = t
     ∨ t' = t ++ [EvSend {| rows := OUT_H; cols := OUT_W |}; EvPace]).
Proof.
  unfold send_frame. loop_unfold.
  destruct (render frame (smooth s) margin) as [img|] eqn:Hr; [|by auto].
  split; [done|]. right. rewrite <- app_assoc.
  by rewrite (render_shape _ _ _ _ Hr).
Qed.

Lemma process_frame_cases (w : world) (frame : shape) (s : loop_state) (t : list event) :
  let '(s', t', _) := process_frame w frame s t in
  cap s' = cap s
  ∧ current_cam_index s' = current_cam_index s
  ∧ frame_idx s' = frame_idx s + 1
  ∧ (smooth s' = smooth s
     ∨ ∃ alpha f rest,
         w_faces w = Ok (f :: rest)
         ∧ smooth s' = Some (update_estimate alpha (smooth s) (max_by_area f rest)))
  ∧ (t' = t
     ∨ t' = t ++ [EvSend {| rows := OUT_H; cols := OUT_W |}; EvPace]).
Proof.
  unfold process_frame. loop_unfold. simpl.
  destruct (subscript (w_cfg w) "orientation") as [o|]; [|simpl; by auto 10].
  destruct (res_mbind _ _ _ (subscript (w_cfg w) "detection_every_n_frames"))
    as [det_n|]; [|simpl; by auto 10].
  destruct (res_mbind _ _ _ (subscript (w_cfg w) "smoothing_alpha"))
    as [alpha|]; [|simpl; by auto 10].
  destruct (res_mbind _ _ _ (subscript (w_cfg w) "margin_factor"))
    as [margin|]; [|simpl; by auto 10].
  match goal with
  | |- context [detect w det_n alpha ?s1 t] =>
      pose proof (detect_cases w det_n alpha s1 t) as Hd;
      destruct (detect w det_n alpha s1 t) as [[s2 t2] fl2]
  end.
  simpl in Hd. destruct Hd as (Hc & Hi & Hf & -> & Hs).
  assert (smooth s2 = smooth s
          ∨ ∃ alpha f rest,
              w_faces w = Ok (f :: rest)
              ∧ smooth s2 = Some (update_estimate alpha (smooth s) (max_by_area f rest)))
    as Hs'.
  { destruct Hs as [?|(f & rest & ? & ?)]; [by left|]. right. by exists alpha, f, rest. }
  destruct fl2; [|by auto 10..].
  pose proof (send_frame_cases (apply_orientation frame o) margin s2 t) as Hsend.
  destruct (send_frame _ margin s2 t) as [[s3 t3] fl3].
  destruct Hsend as [-> Ht]. by auto 10.
Qed.

Lemma switch_camera_trace (w : world) (cam : pyval) (s : loop_state) (t : list event) :
  ∃ evs, (switch_camera w cam s t).1.2 = t ++ evs
         ∧ Forall (λ ev, ∀ img, ev ≠ EvSend img) evs.
Proof.
  unfold switch_camera. loop_unfold. simpl.
  destruct (cap s); simpl; destruct (is_none cam); simpl;
    try destruct (w_open_exn w); simpl;
    try destruct (w_open_ok w); simpl;
    rewrite <- ?app_assoc; eexists; (split; [reflexivity|]);
    repeat constructor; done.
Qed.

Lemma iterate_same_camera (w : world) (s : loop_state) (cam dev : pyval) (frame : shape) :
  w_cfg w !! "camera_index" = Some cam →
  py_eq cam (current_cam_index s) = true →
  cap s = Some dev →
  w_read w = Some frame →
  iterate w s = process_frame w frame s [].
Proof.
  intros Hcam Heq Hcap Hread. unfold iterate, camera_loop_body, subscript.
  rewrite Hcam. loop_unfold. rewrite Heq. simpl. by rewrite Hcap, Hread.
Qed.

Lemma iterate_sends_640 (w : world) (s : loop_state) :
  Forall (λ ev, ∀ img, ev = EvSend img → img = {| rows := OUT_H; cols := OUT_W |})
         (iterate w s).1.2.
Proof.
  unfold iterate, camera_loop_body.
  destruct (subscript (w_cfg w) "camera_index") as [cam|]; loop_unfold; [|done].
  assert (∃ s1 t1 fl1,
            (if negb (py_eq cam (current_cam_index s))
             then switch_camera w cam
             else λ s0 t0, (s0, t0, Next ())) s [] = (s1, t1, fl1)
            ∧ Forall (λ ev, ∀ img, ev ≠ EvSend img) t1) as (s1 & t1 & fl1 & -> & Ht1).
  { destruct (negb _).
    - destruct (switch_camera_trace w cam s []) as (evs & Hevs & Hno).
      destruct (switch_camera w cam s []) as [[s1 t1] fl1]. simpl in Hevs. subst t1.
      by eexists _, _, _.
    - eexists _, _, _. split; [done|]. constructor. }
  assert (Forall (λ ev, ∀ img, ev = EvSend img → img = {| rows := OUT_H; cols := OUT_W |})
            t1) as Hok.
  { eapply Forall_impl; [exact Ht1|]. intros ev Hev img ->. by destruct (Hev img). }
  destruct fl1; simpl; try done.
  destruct (cap s1); simpl; [|by apply Forall_app; split; [|repeat constructor]].
  destruct (w_read w) as [frame|]; simpl;
    [|by apply Forall_app; split; [|repeat constructor]].
  pose proof (process_frame_cases w frame s1 t1) as Hp.
  destruct (process_frame w frame s1 t1) as [[s' t'] fl].
  destruct Hp as (_ & _ & _ & _ & [-> | ->]); [done|].
  apply Forall_app. split; [done|]. constructor; [by intros ? [= <-]|].
  by constructor.
Qed.

(** C1: while the camera index stays the one the loop holds open, a
    frame read under any orientation, changed or not, leaves the capture
    device as it is, neither released nor opened, and does not reset the
    smoothed estimate: it is kept as it was, or, on a detection frame with
    a face, blended with that face. *)
Theorem orientation_change_keeps_estimate (w : world) (s : loop_state)
    (cam dev : pyval) (e : estimate float) (frame : shape) :
  w_cfg w !! "camera_index" = Some cam →
  py_eq cam (current_cam_index s) = true →
  cap s = Some dev →
  smooth s = Some e →
  w_read w = Some frame →
  let '(s', t', _) := iterate w s in
  cap s' = Some dev
  ∧ current_cam_index s' = current_cam_index s
  ∧ Forall (λ ev, is_device_event ev = false) t'
  ∧ (smooth s' = Some e
     ∨ ∃ alpha f rest,
         w_faces w = Ok (f :: rest)
         ∧ smooth s' = Some (update_estimate alpha (Some e) (max_by_area f rest))).
Proof.
  intros Hcam Heq Hcap Hsm Hread.
  rewrite (iterate_same_camera w s cam dev frame) by done.
  pose proof (process_frame_cases w frame s []) as Hp.
  destruct (process_frame w frame s []) as [[s' t'] fl].
  destruct Hp as (Hc & Hi & _ & Hs & Ht). rewrite Hsm in Hs.
  split; [congruence|]. split; [done|]. split; [|done].
  destruct Ht as [-> | ->]; repeat constructor.
Qed.

End loop_facts.

(** ** Exponential smoothing in binary64 *)










(** ** The arithmetic of the planned square *)

Lemma Q_trunc_towards_zero (q : Q) :
  ((0 <= q → inject_Z (Q_trunc q) <= q ∧ q < inject_Z (Q_trunc q) + 1)
   ∧ (q <= 0 → inject_Z (Q_trunc q) - 1 < q ∧ q <= inject_Z (Q_trunc q)))%Q.
Proof.
  destruct q as [n d]. unfold Q_trunc, Qle, Qlt. simpl.
  pose proof (Z.quot_rem' n (Z.pos d)) as Hqr.
  split; intros Hn; rewrite Z.mul_1_r in Hn.
  - pose proof (Z.rem_bound_pos_pos n (Z.pos d) ltac:(lia) Hn). nia.
  - pose proof (Z.rem_bound_pos_neg n (Z.pos d) ltac:(lia) Hn). nia.
Qed.

Lemma Q_round_nearest (q : Q) : (Qabs (q - inject_Z (Q_round q)) <= 1 # 2)%Q.
Proof.
  apply Qabs_Qle_condition.
  destruct q as [n d]. unfold Q_round. simpl.
  pose proof (Z.div_mod n (Z.pos d) ltac:(lia)) as Hdm.
  pose proof (Z.mod_pos_bound n (Z.pos d) ltac:(lia)) as Hb.
  set (f := (n / Z.pos d)%Z) in *. set (r := (n mod Z.pos d)%Z) in *.
  assert (∀ z : Z, (- (1 # 2) <= (n # d) - inject_Z z ∧ (n # d) - inject_Z z <= 1 # 2)%Q
                   ↔ (- Z.pos d ≤ 2 * (n - z * Z.pos d) ≤ Z.pos d)%Z) as Hz.
  { intros z. unfold Qle, Qminus, Qplus, Qopp, inject_Z. simpl. lia. }
  destruct (Z.compare_spec (2 * r) (Z.pos d)); [destruct (Z.even f)|..];
    apply Hz; nia.
Qed.

(** C4: on the frame 480x640 with centre (320, 240), size 100 and margin
    2.8 the desired size is 280, it stays 280 after clamping and the
    square is (x=180, y=100, side=280).  In general the desired size is
    [int(size * margin)], the product cut towards zero, and the corner is
    [round(centre) - side // 2] on each axis, the centre rounded to the
    nearest integer first, then moved into [0, width - side] and
    [0, height - side]. *)
Theorem plan_square_arithmetic :
  desired_size estimate_vga float_2_8 = Ok 280
  ∧ clamp_size 480 640 280 = 280
  ∧ plan_square 480 640 estimate_vga float_2_8
    = Ok {| sq_x := 180; sq_y := 100; sq_size := 280 |}
  ∧ (∀ (A : Type) (N : PyNumber A) (h_f w_f : Z) (e : estimate A) (margin : A)
       (d cx cy : Z),
       num_int (num_mul (smooth_size e) margin) = Ok d →
       num_round (smooth_cx e) = Ok cx →
       num_round (smooth_cy e) = Ok cy →
       let side := Z.max 50 (Z.min d (Z.min h_f w_f)) in
       plan_square h_f w_f e margin
       = Ok {| sq_x := Z.min (Z.max 0 (cx - side / 2)) (w_f - side);
               sq_y := Z.min (Z.max 0 (cy - side / 2)) (h_f - side);
               sq_size := side |})
  ∧ (∀ q : Q,
       num_int q = Ok (Q_trunc q)
       ∧ (0 <= q → inject_Z (Q_trunc q) <= q ∧ q < inject_Z (Q_trunc q) + 1)%Q
       ∧ (q <= 0 → inject_Z (Q_trunc q) - 1 < q ∧ q <= inject_Z (Q_trunc q))%Q)
  ∧ (∀ q : Q,
       num_round q = Ok (Q_round q)
       ∧ (Qabs (q - inject_Z (Q_round q)) <= 1 # 2)%Q).
Proof.
  split; [by vm_compute|]. split; [by vm_compute|]. split; [by vm_compute|].
  split; [|split].
  - intros A N h_f w_f e margin d cx cy Hd Hx Hy side.
    by apply plan_square_value.
  - intros q. split; [done|]. apply Q_trunc_towards_zero.
  - intros q. split; [done|]. apply Q_round_nearest.
Qed.

Lemma plan_square_arithmetic_witness :
  plan_square 480 640
    {| smooth_cx := 0x1.409999999999ap+8%float; smooth_cy := 240%float;
       smooth_size := 100%float |} float_2_806
  = Ok {| sq_x := 181; sq_y := 100; sq_size := 280 |}.
Proof.
  refine (eq_trans
            (proj1 (proj2 (proj2 (proj2 plan_square_arithmetic)))
               float float_number 480 640 _ float_2_806 280 321 240 _ _ _) _).
  - vm_compute. reflexivity.
  - vm_compute. reflexivity.
  - vm_compute. reflexivity.
  - vm_compute. reflexivity.
Defined.

(** C4, as stated, fails where the product has a fractional part of a
    half or more: for size 100 and margin 2.806 the code's desired size
    is 280, the rounded product is 281. *)
Lemma desired_size_is_not_rounded :
  ¬ (desired_size {| smooth_cx := 0x1.409999999999ap+8%float; smooth_cy := 240%float;
                     smooth_size := 100%float |} float_2_806
     = spec_desired_size {| smooth_cx := 0x1.409999999999ap+8%float;
                            smooth_cy := 240%float;
                            smooth_size := 100%float |} float_2_806).
Proof. vm_compute. discriminate. Qed.

(** ** Sample runs of the planner and the loop *)

Lemma crop_region_in_frame_witness :
  match select_crop frame_vga (Some estimate_vga) float_2_8 with
  | Ok (s, crop) =>
      convertible (Some estimate_vga) float_2_8
      ∧ 0 ≤ sq_x s ∧ sq_x s + sq_size s ≤ cols frame_vga
      ∧ 0 ≤ sq_y s ∧ sq_y s + sq_size s ≤ rows frame_vga
      ∧ 50 ≤ sq_size s ≤ Z.min (rows frame_vga) (cols frame_vga)
      ∧ crop = {| rows := sq_size s; cols := sq_size s |}
  | Raise ex => ¬ convertible (Some estimate_vga) float_2_8 ∧ Some estimate_vga ≠ None
  end.
Proof.
  apply (crop_region_in_frame frame_vga (Some estimate_vga) float_2_8).
  - simpl. lia.
  - simpl. lia.
Defined.

(** A margin the handler stores can make the product infinite: the size
    100 times [1e308] overflows, and [int] raises. *)
Lemma crop_of_huge_margin_raises :
  select_crop frame_vga (Some estimate_vga) float_1e308 = Raise OverflowError.
Proof. vm_compute. reflexivity. Qed.

(** C2, as stated, fails on a frame smaller than 50 pixels: the centred
    square of a 40x40 frame has side 40. *)
Lemma crop_of_tiny_frame_below_50 :
  ¬ ∃ s crop,
      select_crop (A := float) frame_tiny None float_2_8 = Ok (s, crop)
      ∧ 50 ≤ sq_size s.
Proof.
  intros (s & crop & Hsel & Hside). vm_compute in Hsel.
  injection Hsel as <- _. simpl in Hside. lia.
Qed.

(** With an estimate the planned side on that frame is 50, larger than
    the frame, and the corner is outside it. *)
Lemma plan_of_tiny_frame_outside :
  plan_square 40 40 estimate_vga float_2_8
  = Ok {| sq_x := -10; sq_y := -10; sq_size := 50 |}.
Proof. vm_compute. reflexivity. Qed.

Section sink.
Context `{PyLiterals}.

(** C9: for a frame with positive height and width the crop that reaches
    the resize step is square and not empty, whether it is the planned one
    or the centred fallback, and the resize makes it 640x640; the crop
    step raises only when the estimate holds a number [int] or [round]
    refuses, and then no image is made.  Every image an iteration of the
    loop hands to the sink is 640x640. *)
Theorem sink_images_640 :
  (∀ (A : Type) (N : PyNumber A) (frame : shape) (est : option (estimate A))
     (margin : A),
     0 < rows frame → 0 < cols frame →
     match select_crop frame est margin with
     | Ok (s, crop) =>
         rows crop = cols crop ∧ 0 < rows crop
         ∧ render frame est margin = Ok {| rows := OUT_H; cols := OUT_W |}
     | Raise ex =>
         ¬ convertible est margin ∧ render frame est margin = Raise ex
     end)
  ∧ (∀ (w : world) (s : loop_state),
       Forall (λ ev, ∀ img, ev = EvSend img
                            → img = {| rows := OUT_H; cols := OUT_W |})
              (iterate w s).1.2).
Proof.
  split.
  - intros A N frame est margin. apply select_crop_square_or_raises.
  - apply iterate_sends_640.
Qed.

End sink.

Lemma sink_images_640_witness :
  render frame_tiny (Some estimate_vga) float_2_8
  = Ok {| rows := OUT_H; cols := OUT_W |}.
Proof.
  pose proof (proj1 (@sink_images_640 no_numeric_strings) float float_number
                frame_tiny (Some estimate_vga) float_2_8) as Hw.
  assert (select_crop frame_tiny (Some estimate_vga) float_2_8
          = Ok ({| sq_x := -10; sq_y := -10; sq_size := 50 |},
                {| rows := 10; cols := 10 |})) as Hsel
    by (vm_compute; reflexivity).
  rewrite Hsel in Hw. apply Hw; simpl; lia.
Defined.

Lemma state_tracking_reached :
  @camera_loop no_numeric_strings (replicate 10 world_none) initial_state []
  = (state_tracking,
     EvOpen (VInt 1)
     :: concat (replicate 10 [EvSend {| rows := 640; cols := 640 |}; EvPace]),
     None).
Proof. vm_compute. reflexivity. Qed.

Lemma orientation_change_keeps_estimate_witness :
  let '(s', t', _) := @iterate no_numeric_strings world_cw state_tracking in
  cap s' = Some (VInt 1)
  ∧ current_cam_index s' = current_cam_index state_tracking
  ∧ Forall (λ ev, is_device_event ev = false) t'
  ∧ (smooth s' = Some estimate_vga
     ∨ ∃ alpha f rest,
         w_faces world_cw = Ok (f :: rest)
         ∧ smooth s' = Some (update_estimate alpha (Some estimate_vga)
                               (max_by_area f rest))).
Proof.
  apply (@orientation_change_keeps_estimate no_numeric_strings world_cw
           state_tracking (VInt 1) (VInt 1) estimate_vga frame_vga).
  - vm_compute. reflexivity.
  - vm_compute. reflexivity.
  - reflexivity.
  - reflexivity.
  - reflexivity.
Defined.

(** C1, as stated, fails: the first frame processed after the
    orientation went from "none" to "cw" leaves the estimate in place. *)
Lemma estimate_survives_orientation_change :
  ¬ (smooth (@iterate no_numeric_strings world_cw state_tracking).1.1 = None).
Proof. vm_compute. discriminate. Qed.

(** * Further properties of the code *)

(** ** Store: durability and the set of fields *)

Lemma assign_known_idem (d cfg : dict) :
  assign_known d (assign_known d cfg) = assign_known d cfg.
Proof.
  apply map_eq. intros k. rewrite !assign_known_lookup.
  destruct (cfg !! k) as [old|]; [|done]. simpl. by destruct (d !! k).
Qed.

Lemma load_persisted_config_clear (linux : bool) (cfg data : dict) :
  load_persisted_config linux {| config := cfg; config_file := Some data |}
  = {| config := clear_loopback linux (assign_known data cfg);
       config_file := Some data |}.
Proof. reflexivity. Qed.



(** X2: the configuration never loses or gains a field: an update, a
    load from any file, a POST with any payload and a restart all leave a
    configuration with the five fields with exactly those five. *)
Theorem store_keeps_five_fields (st : store) :
  dom (config st) = dom default_config →
  (∀ disk_ok changes,
     dom (config (update_config disk_ok changes st)) = dom default_config)
  ∧ (∀ linux, dom (config (load_persisted_config linux st)) = dom default_config)
  ∧ (∀ (L : PyLiterals) disk_ok data,
       dom (config (api_config_post disk_ok data st).1) = dom default_config)
  ∧ (∀ linux, dom (config (restart linux st)) = dom default_config).
Proof.
  intros Hd. split; [|split; [|split]].
  - intros disk_ok changes. unfold update_config.
    rewrite persist_config_config. cbn [config]. by rewrite assign_known_dom.
  - intros linux. by rewrite load_persisted_config_keys.
  - intros L disk_ok data. by rewrite api_config_post_keys.
  - intros linux. unfold restart. by rewrite load_persisted_config_keys.
Qed.

Lemma store_keeps_five_fields_witness :
  dom (config (load_persisted_config true
                 {| config := default_config;
                    config_file := Some payload_unknown |}))
  = dom default_config.
Proof.
  apply (store_keeps_five_fields
           {| config := default_config; config_file := Some payload_unknown |}).
  reflexivity.
Defined.

Lemma clear_loopback_lookup (linux : bool) (cfg : dict) (k : string) :
  clear_loopback linux cfg !! k
  = if linux && py_eq (default VNone (cfg !! "camera_index")) (VInt 0)
       && bool_decide (k = "camera_index")
    then Some VNone else cfg !! k.
Proof.
  unfold clear_loopback. destruct (linux && py_eq _ _); simpl; [|done].
  case_bool_decide as Hk; [subst; by rewrite lookup_insert_eq|].
  by rewrite lookup_insert_ne.
Qed.

(** X3: loading is idempotent: a second [load_persisted_config] of the
    same file changes nothing. *)
Theorem load_persisted_config_idem (linux : bool) (st : store) :
  load_persisted_config linux (load_persisted_config linux st)
  = load_persisted_config linux st.
Proof.
  destruct st as [cfg [data|]]; [|done].
  rewrite !load_persisted_config_clear. f_equal.
  apply map_eq. intros k.
  set (cfg1 := assign_known data cfg).
  assert (∀ j, assign_known data (clear_loopback linux cfg1) !! j
               = if linux && py_eq (default VNone (cfg1 !! "camera_index")) (VInt 0)
                    && bool_decide (j = "camera_index")
                 then Some (default VNone (data !! j)) else cfg1 !! j) as Hm.
  { intros j. rewrite assign_known_lookup, clear_loopback_lookup.
    destruct (_ && bool_decide _); [done|].
    unfold cfg1. rewrite assign_known_lookup.
    destruct (cfg !! j); [|done]. simpl. by destruct (data !! j). }
  rewrite !clear_loopback_lookup, !Hm.
  destruct (linux && py_eq (default VNone (cfg1 !! "camera_index")) (VInt 0))
    eqn:Hc; simpl.
  - case_bool_decide as Hk; [subst k|by rewrite andb_false_r].
    rewrite andb_true_r. apply andb_true_iff in Hc as [-> Hz]. simpl.
    unfold cfg1 in Hz. rewrite assign_known_lookup in Hz.
    destruct (data !! "camera_index") as [v|]; simpl; [|done].
    destruct (cfg !! "camera_index"); simpl in Hz; [by rewrite Hz|done].
  - by rewrite Hc.
Qed.

(** X4: a process that starts on Linux never has the loopback index 0
    as its [camera_index], whatever the file holds. *)
Theorem restart_never_selects_loopback (st : store) :
  py_eq (default VNone (config (restart true st) !! "camera_index")) (VInt 0)
  = false.
Proof.
  unfold restart, load_persisted_config. cbn [config_file config].
  destruct (config_file st) as [data|]; [|by vm_compute].
  cbn [config andb].
  destruct (py_eq (default VNone (assign_known _ _ !! _)) (VInt 0)) eqn:Hz;
    [|done].
  by rewrite lookup_insert_eq.
Qed.

(** ** The [/api/config] handler: what it writes and when it fails *)

Lemma all_in_range_default : all_in_range default_config.
Proof.
  intros k x Hk. unfold default_config in Hk.
  apply lookup_insert_Some in Hk as [[<- <-]|[_ Hk]]; [by left|].
  apply lookup_insert_Some in Hk as [[<- <-]|[_ Hk]]; [by left|].
  apply lookup_insert_Some in Hk as [[<- <-]|[_ Hk]]; [by exists 10|].
  apply lookup_insert_Some in Hk as [[<- <-]|[_ Hk]]; [by exists float_0_02|].
  apply lookup_insert_Some in Hk as [[<- <-]|[_ Hk]]; [by exists float_2_8|].
  by rewrite lookup_empty in Hk.
Qed.

Lemma py_in_orientations (v : pyval) :
  py_in v orientations = true → v = VStr "none" ∨ v = VStr "cw" ∨ v = VStr "ccw".
Proof.
  destruct v as [| | | |s|]; try (by vm_compute).
  change (py_in (VStr s) orientations)
    with (String.eqb "none" s || (String.eqb "cw" s || (String.eqb "ccw" s || false))).
  destruct (String.eqb_spec "none" s) as [<-|]; [by auto|].
  destruct (String.eqb_spec "cw" s) as [<-|]; [by auto|].
  destruct (String.eqb_spec "ccw" s) as [<-|]; [by auto|done].
Qed.

Section api_more.
Context `{PyLiterals}.

Lemma written_in_range (k : string) (v x : pyval) :
  written k v = Some x → in_range k x.
Proof.
  unfold written, in_range, field_check.
  destruct (String.eqb_spec k "camera_index") as [->|N1].
  { unfold check_camera_index. res_step.
    destruct (isinstance_int v) eqn:Hi; [|done]. intros [= <-]. by right. }
  destruct (String.eqb_spec k "orientation") as [->|N2].
  { unfold check_orientation. res_step.
    destruct (py_in v orientations) eqn:Hi; [|done]. intros [= <-].
    by apply py_in_orientations. }
  destruct (String.eqb_spec k "detection_every_n_frames") as [->|N3].
  { unfold check_detection.
    destruct (except_type_value (py_int v)) as [[n|]|]; res_simpl; try done.
    intros [= <-]. exists (clamp_detection n). split; [done|].
    rewrite clamp_detection_max. lia. }
  destruct (String.eqb_spec k "smoothing_alpha") as [->|N4].
  { unfold check_alpha.
    destruct (except_type_value (py_float v)) as [[a|]|]; res_simpl; try done.
    intros [= <-]. exists (clamp_alpha a). split; [done|].
    unfold clamp_alpha. by destruct (PrimFloat.leb a 0) eqn:Ha. }
  destruct (String.eqb_spec k "margin_factor") as [->|N5]; [|done].
  unfold check_margin.
  destruct (except_type_value (py_float v)) as [[m|]|]; res_simpl; try done.
  intros [= <-]. exists (clamp_margin m). split; [done|].
  unfold clamp_margin. by destruct (PrimFloat.ltb m 1) eqn:Hm.
Qed.

Lemma collect_changes_raises (data : dict) (e : pyexn) :
  collect_changes data = Raise e →
  ∃ k v, data !! k = Some v ∧ field_check k v = Raise e.
Proof.
  unfold collect_changes.
  destruct (collect_field "camera_index" _ data ∅) as [c1|e1] eqn:E1; res_step;
    [|intros [= <-]; apply collect_field_raises in E1 as (v & ? & ?);
      by exists "camera_index", v].
  destruct (collect_field "orientation" _ data c1) as [c2|e2] eqn:E2; res_step;
    [|intros [= <-]; apply collect_field_raises in E2 as (v & ? & ?);
      by exists "orientation", v].
  destruct (collect_field "detection_every_n_frames" _ data c2) as [c3|e3] eqn:E3;
    res_step;
    [|intros [= <-]; apply collect_field_raises in E3 as (v & ? & ?);
      by exists "detection_every_n_frames", v].
  destruct (collect_field "smoothing_alpha" _ data c3) as [c4|e4] eqn:E4; res_step;
    [|intros [= <-]; apply collect_field_raises in E4 as (v & ? & ?);
      by exists "smoothing_alpha", v].
  intros E5. apply collect_field_raises in E5 as (v & ? & ?).
  by exists "margin_factor", v.
Qed.

Lemma api_config_post_ok_lookup (disk_ok : bool) (data changes : dict) (st : store)
    (k : string) :
  collect_changes data = Ok changes →
  config (api_config_post disk_ok data st).1 !! k
  = (λ old, default old (data !! k ≫= written k)) <$> (config st !! k).
Proof.
  intros Hc. unfold api_config_post. rewrite Hc. cbn [fst].
  rewrite <- (collect_changes_lookup data changes k Hc).
  destruct (Nat.eqb_spec (size changes) 0) as [Hz|Hnz].
  - apply map_size_empty_inv in Hz. subst changes. rewrite lookup_empty.
    by destruct (config st !! k).
  - apply update_config_lookup.
Qed.

(** X5: the handler never writes a value outside its field's range: if
    every field of the configuration is in range before a POST (as in the
    module's defaults), every field is in range after it, whatever the
    payload: [detection_every_n_frames] an integer of at least 1,
    [smoothing_alpha] a float that is not [<= 0], [margin_factor] a float
    that is not [< 1], [orientation] one of the three names and
    [camera_index] an integer or [None]. *)
Theorem handler_keeps_values_in_range (disk_ok : bool) (data : dict) (st : store) :
  all_in_range (config st) →
  all_in_range (config (api_config_post disk_ok data st).1).
Proof.
  intros Hin k x.
  destruct (collect_changes data) as [changes|e] eqn:Hc.
  - rewrite (api_config_post_ok_lookup disk_ok data changes st k Hc).
    destruct (config st !! k) as [old|] eqn:Eold; [|done]. simpl.
    destruct (data !! k) as [v|]; simpl; [|intros [= <-]; by apply Hin].
    destruct (written k v) as [y|] eqn:Ew; simpl; intros [= <-];
      [by eapply written_in_range|by apply Hin].
  - unfold api_config_post. rewrite Hc. apply Hin.
Qed.

(** X6: the only exception that leaves the handler is [OverflowError],
    from a number too large for [int] or [float]; when it does, nothing
    of the payload is applied or written to disk, the valid fields
    included. *)
Theorem api_failure_is_atomic (disk_ok : bool) (data : dict) (st st' : store)
    (e : pyexn) :
  api_config_post disk_ok data st = (st', Raise e) →
  st' = st ∧ e = OverflowError ∧ ¬ no_overflow data.
Proof.
  unfold api_config_post.
  destruct (collect_changes data) as [changes|e0] eqn:Hc; [done|].
  intros [= <- <-]. split; [done|].
  destruct (collect_changes_raises data e0 Hc) as (k & v & Hk & Hr).
  split; [by apply field_check_raises in Hr as [-> _]|].
  intros Hno. apply (no_overflow_checks data Hno) in Hk. by rewrite Hr in Hk.
Qed.

(** X7: posting the same payload a second time changes nothing: the
    floors and checks give the same values again. *)
Theorem api_config_post_idem (d1 d2 : bool) (data : dict) (st : store) :
  no_overflow data →
  config (api_config_post d2 data (api_config_post d1 data st).1).1
  = config (api_config_post d1 data st).1.
Proof.
  intros Hno.
  pose proof (collect_changes_total data (no_overflow_checks data Hno)) as Ht.
  destruct (collect_changes data) as [changes|] eqn:Hc; [|done].
  apply map_eq. intros k.
  rewrite (api_config_post_ok_lookup d2 data changes _ k Hc).
  rewrite (api_config_post_ok_lookup d1 data changes st k Hc).
  destruct (config st !! k); [|done]. simpl.
  by destruct (data !! k ≫= written k).
Qed.


End api_more.

Lemma handler_keeps_values_in_range_witness :
  all_in_range
    (config (@api_config_post no_numeric_strings true payload_mixed store0).1).
Proof.
  apply (@handler_keeps_values_in_range no_numeric_strings true payload_mixed store0).
  simpl. exact all_in_range_default.
Defined.

Lemma api_failure_is_atomic_witness :
  (@api_config_post no_numeric_strings true payload_overflow store0).1 = store0.
Proof.
  destruct (@api_config_post no_numeric_strings true payload_overflow store0)
    as [st' r] eqn:E.
  assert (r = Raise OverflowError) as ->.
  { change r with (st', r).2. rewrite <- E. vm_compute. reflexivity. }
  exact (proj1 (@api_failure_is_atomic no_numeric_strings true payload_overflow
                  store0 st' OverflowError E)).
Defined.

Lemma no_overflow_mixed : @no_overflow no_numeric_strings payload_mixed.
Proof.
  repeat split; intros v Hv; unfold payload_mixed in Hv;
    repeat (apply lookup_insert_Some in Hv as [[? <-]|[_ Hv]]; [done|]);
    by rewrite lookup_empty in Hv.
Qed.

Lemma api_config_post_idem_witness :
  config (@api_config_post no_numeric_strings true payload_mixed
            (@api_config_post no_numeric_strings true payload_mixed store0).1).1
  = config (@api_config_post no_numeric_strings true payload_mixed store0).1.
Proof.
  apply (@api_config_post_idem no_numeric_strings true true payload_mixed store0).
  exact no_overflow_mixed.
Defined.

(** ** Camera enumeration: which indices, in which order *)

Lemma seqZ_of_len (m len : Z) : seqZ m len = seqZ m (Z.of_nat (Z.to_nat len)).
Proof.
  destruct (Z_le_gt_dec len 0) as [Hle|Hgt].
  - rewrite (seqZ_nil m len) by done. symmetry. apply seqZ_nil. lia.
  - by rewrite Z2Nat.id by lia.
Qed.

Lemma seqZ_sorted (n : nat) (m : Z) : StronglySorted Z.lt (seqZ m (Z.of_nat n)).
Proof.
  revert m. induction n as [|n IH]; intros m.
  - rewrite seqZ_nil by lia. constructor.
  - rewrite seqZ_cons by lia. constructor.
    + replace (Z.pred (Z.of_nat (S n))) with (Z.of_nat n) by lia. apply IH.
    + apply Forall_seqZ. lia.
Qed.

Lemma filter_sorted (P : Z → Prop) `{∀ x, Decision (P x)} (l : list Z) :
  StronglySorted Z.lt l → StronglySorted Z.lt (filter P l).
Proof.
  induction 1 as [|x l Hl IH Hx]; [constructor|].
  rewrite filter_cons. case_decide; [|done].
  constructor; [done|]. apply Forall_forall. intros y Hy.
  apply list_elem_of_filter in Hy as [_ Hy].
  by apply (proj1 (Forall_forall _ _) Hx).
Qed.

Lemma py_eq_int_inj (i j : Z) (v : pyval) :
  py_eq (VInt i) v = true → py_eq (VInt j) v = true → i = j.
Proof.
  destruct v as [|b|z|f| |]; simpl; try done.
  - intros Hi Hj. apply Z.eqb_eq in Hi, Hj. congruence.
  - intros Hi Hj. apply Z.eqb_eq in Hi, Hj. congruence.
  - unfold Float64.eq_int. destruct (Prim2SF f) as [| | |s m e]; try done.
    + intros Hi Hj. apply Z.eqb_eq in Hi, Hj. congruence.
    + destruct (0 <=? e).
      * intros Hi Hj. apply Z.eqb_eq in Hi, Hj. congruence.
      * intros Hi Hj. apply andb_true_iff in Hi as [_ Hi], Hj as [_ Hj].
        apply Z.eqb_eq in Hi, Hj. congruence.
Qed.

Section enumeration.
Variables opens reads : Z → bool.

Lemma py_in_ints (v : pyval) (l : list Z) :
  py_in v (VInt <$> l) = true ↔ ∃ i, i ∈ l ∧ py_eq (VInt i) v = true.
Proof.
  unfold py_in. rewrite existsb_exists. split.
  - intros (x & Hx & Heq). apply list_elem_of_In, list_elem_of_fmap in Hx as (i & -> & Hi).
    by exists i.
  - intros (i & Hi & Heq). exists (VInt i). split; [|done].
    apply list_elem_of_In, list_elem_of_fmap. by exists i.
Qed.

Lemma probe_fold_filter (cur : pyval) (n : nat) (m : Z) (acc : list Z) :
  Forall (λ j, j < m) acc →
  foldl (probe_step opens reads cur) (VInt <$> acc) (seqZ m (Z.of_nat n))
  = VInt <$> (acc ++ filter (λ i, usable opens reads cur i = true)
                            (seqZ m (Z.of_nat n))).
Proof.
  revert m acc. induction n as [|n IH]; intros m acc Hacc.
  - rewrite seqZ_nil by lia. simpl. by rewrite filter_nil, app_nil_r.
  - rewrite seqZ_cons by lia.
    replace (Z.pred (Z.of_nat (S n))) with (Z.of_nat n) by lia. simpl.
    assert (py_in (VInt m) (VInt <$> acc) = false) as Hfresh.
    { apply not_true_is_false. intros Hin.
      apply py_in_ints in Hin as (i & Hi & Heq). simpl in Heq.
      apply Z.eqb_eq in Heq. subst i.
      apply (proj1 (Forall_forall _ _) Hacc) in Hi. lia. }
    assert (probe_step opens reads cur (VInt <$> acc) m
            = VInt <$> (acc ++ (if usable opens reads cur m then [m] else [])))
      as ->.
    { unfold probe_step, usable. rewrite Hfresh.
      destruct (negb (is_none cur) && py_eq (VInt m) cur); simpl;
        [by rewrite fmap_app|].
      destruct (opens m); simpl; [|by rewrite app_nil_r].
      destruct (reads m); simpl; [by rewrite fmap_app|by rewrite app_nil_r]. }
    rewrite IH.
    + rewrite filter_cons. destruct (usable opens reads cur m) eqn:Hu.
      * rewrite decide_True by done. by rewrite <- app_assoc.
      * rewrite decide_False by done. by rewrite app_nil_r.
    + apply Forall_app. split.
      * eapply Forall_impl; [exact Hacc|]. simpl. lia.
      * destruct (usable opens reads cur m); repeat constructor. lia.
Qed.

(** The result without the loop: the usable indices of the range in
    ascending order, then the selected index if it is set and none of
    them equals it. *)
Lemma list_cameras_filter (linux : bool) (st : store) (max_index : Z) :
  let cur := default VNone (get_config st !! "camera_index") in
  let start := if linux then 1 else 0 in
  let found := filter (λ i, usable opens reads cur i = true)
                      (seqZ start (max_index - start)) in
  list_cameras opens reads linux st max_index
  = (VInt <$> found)
    ++ (if negb (is_none cur) && negb (py_in cur (VInt <$> found))
        then [cur] else []).
Proof.
  intros cur start found. unfold list_cameras. fold cur. fold start.
  assert (foldl (probe_step opens reads cur) [] (seqZ start (max_index - start))
          = VInt <$> found) as ->.
  { unfold found. rewrite seqZ_of_len.
    by rewrite (probe_fold_filter cur _ start []) by constructor. }
  destruct (negb (is_none cur) && negb (py_in cur (VInt <$> found)));
    [done|by rewrite app_nil_r].
Qed.

(** X9: an integer is in the result of the enumeration exactly when it
    lies in the probed range (from 1 on Linux, from 0 elsewhere, below
    [max_index]) and either equals the selected index or opens and
    delivers a frame, or when it is the selected index itself; and every
    entry is an integer or the selected index. *)
Theorem list_cameras_members (linux : bool) (st : store) (max_index : Z) :
  let cur := default VNone (get_config st !! "camera_index") in
  let start := if linux then 1 else 0 in
  let cams := list_cameras opens reads linux st max_index in
  (∀ i, VInt i ∈ cams
        ↔ (start ≤ i < max_index ∧ usable opens reads cur i = true) ∨ cur = VInt i)
  ∧ (∀ v, v ∈ cams → v = cur ∨ ∃ i, v = VInt i).
Proof.
  intros cur start cams. subst cams. rewrite list_cameras_filter.
  fold cur. fold start.
  set (found := filter _ (seqZ start (max_index - start))).
  assert (∀ i, i ∈ found ↔ start ≤ i < max_index ∧ usable opens reads cur i = true)
    as Hfound.
  { intros i. unfold found. rewrite list_elem_of_filter, elem_of_seqZ.
    intuition lia. }
  split.
  - intros i. rewrite elem_of_app, list_elem_of_fmap. split.
    + intros [(j & [= <-] & Hj)|Htail]; [left; by apply Hfound|].
      destruct (_ && _); [|by apply elem_of_nil in Htail].
      apply list_elem_of_singleton in Htail. by right.
    + intros [Hi|Hcur].
      * left. exists i. split; [done|]. by apply Hfound.
      * destruct (py_in cur (VInt <$> found)) eqn:Hin.
        -- left. apply py_in_ints in Hin as (j & Hj & Heq).
           rewrite Hcur in Heq. simpl in Heq. apply Z.eqb_eq in Heq. subst j.
           by exists i.
        -- right. rewrite Hcur at 1. simpl. rewrite Hcur. by apply list_elem_of_singleton.
  - intros v Hv. apply elem_of_app in Hv as [Hv|Hv].
    + apply list_elem_of_fmap in Hv as (i & -> & _). right. by exists i.
    + destruct (_ && _); [|by apply elem_of_nil in Hv].
      apply list_elem_of_singleton in Hv. by left.
Qed.

(** X10: the result lists no camera twice and is ordered: it is a
    strictly ascending run of integers, followed at most by the selected
    index, and no entry equals ([==]) an entry before it. *)
Theorem list_cameras_ordered_distinct (linux : bool) (st : store) (max_index : Z) :
  let cur := default VNone (get_config st !! "camera_index") in
  let cams := list_cameras opens reads linux st max_index in
  NoDup cams
  ∧ (∃ found, StronglySorted Z.lt found
              ∧ (cams = VInt <$> found ∨ cams = (VInt <$> found) ++ [cur]))
  ∧ (∀ p q x y, (p < q)%nat → cams !! p = Some x → cams !! q = Some y →
                py_eq x y = false).
Proof.
  intros cur cams. subst cams. rewrite list_cameras_filter. fold cur.
  clearbody cur.
  set (start := if linux then 1 else 0).
  set (found := filter _ (seqZ start (max_index - start))).
  assert (StronglySorted Z.lt found) as Hsorted.
  { unfold found. apply filter_sorted. rewrite seqZ_of_len. apply seqZ_sorted. }
  assert (NoDup found) as Hnd by (apply NoDup_filter, NoDup_seqZ).
  assert (NoDup (VInt <$> found)) as Hndv.
  { apply NoDup_fmap_2; [|done]. by intros ?? [= ->]. }
  assert (∀ p q x y, (p < q)%nat → (VInt <$> found) !! p = Some x →
            (VInt <$> found) !! q = Some y → py_eq x y = false) as Hpair.
  { intros p q x y Hpq Hp Hq.
    apply list_lookup_fmap_Some in Hp as (a & -> & Ha).
    apply list_lookup_fmap_Some in Hq as (b & -> & Hb).
    simpl. apply Z.eqb_neq. intros ->.
    pose proof (NoDup_lookup _ _ _ _ Hnd Ha Hb). lia. }
  destruct (negb (is_none cur) && negb (py_in cur (VInt <$> found))) eqn:Hadd.
  - apply andb_true_iff in Hadd as [_ Hin]. apply negb_true_iff in Hin.
    assert (∀ x, x ∈ VInt <$> found → py_eq x cur = false) as Hne.
    { intros x Hx. apply not_true_is_false. intros Heq.
      assert (py_in cur (VInt <$> found) = true); [|congruence].
      unfold py_in. apply existsb_exists. exists x.
      split; [by apply list_elem_of_In|done]. }
    split; [|split].
    + apply NoDup_app. split; [done|]. split; [|apply NoDup_singleton].
      intros x Hx Hxc. apply list_elem_of_singleton in Hxc. subst x.
      pose proof (Hne cur Hx) as Hr.
      apply list_elem_of_fmap in Hx as (i & Hc & _).
      rewrite Hc in Hr. simpl in Hr. by rewrite Z.eqb_refl in Hr.
    + exists found. split; [done|]. by right.
    + intros p q x y Hpq Hp Hq.
      apply lookup_app_Some in Hq as [Hq|[Hlen Hq]].
      * apply lookup_app_Some in Hp as [Hp|[Hlen _]]; [by eapply Hpair|].
        apply lookup_lt_Some in Hq. lia.
      * apply list_lookup_singleton_Some in Hq as [Hq0 <-].
        apply lookup_app_Some in Hp as [Hp|[Hlen' Hp]].
        -- apply Hne. by eapply list_elem_of_lookup_2.
        -- apply list_lookup_singleton_Some in Hp as [Hp0 _]. lia.
  - rewrite app_nil_r. split; [done|]. split; [|done].
    exists found. split; [done|]. by left.
Qed.

End enumeration.

(** ** The [/api/cameras] handler *)

Lemma string_append_length (s1 s2 : string) :
  String.length (s1 +:+ s2) = (String.length s1 + String.length s2)%nat.
Proof. induction s1 as [|c s1 IH]; simpl; [done|]. by rewrite IH. Qed.

Section cameras_facts.
Context `{PyFormat}.
Variables opens reads : Z → bool.

Lemma camera_label_marked (cur i : pyval) :
  camera_label cur i = ("Camera " +:+ py_str i) +:+ " (current)"
  ↔ py_eq i cur = true.
Proof.
  unfold camera_label. destruct (py_eq i cur); [done|]. split; [|done].
  intros Heq. apply (f_equal String.length) in Heq.
  rewrite !string_append_length in Heq. simpl in Heq. lia.
Qed.

(** X11: the list of cameras the control page gets marks the selected
    camera and only it: when no camera is selected no label carries
    " (current)"; when one is selected (and equals itself, as every value
    but a NaN does) exactly one entry carries it, and that entry's index
    equals the selected one. *)
Theorem api_cameras_marks_selected (linux : bool) (st : store) :
  let cur := default VNone (get_config st !! "camera_index") in
  let entries := api_cameras opens reads linux st in
  let marked (e : camera_entry) :=
    entry_label e = ("Camera " +:+ py_str (entry_index e)) +:+ " (current)" in
  (is_none cur = true → ∀ e, e ∈ entries → ¬ marked e)
  ∧ (is_none cur = false → py_eq cur cur = true →
     ∃ e, e ∈ entries ∧ marked e ∧ py_eq (entry_index e) cur = true
          ∧ ∀ e', e' ∈ entries → marked e' → e' = e).
Proof.
  intros cur entries marked. subst entries marked. unfold api_cameras.
  rewrite list_cameras_filter. fold cur. clearbody cur.
  set (start := if linux then 1 else 0).
  set (found := filter _ (seqZ start (10 - start))).
  set (mk := λ i, {| entry_index := i; entry_label := camera_label cur i |}).
  assert (∀ i, entry_label (mk i)
               = ("Camera " +:+ py_str (entry_index (mk i))) +:+ " (current)"
               ↔ py_eq i cur = true) as Hmark
    by (intros i; apply camera_label_marked).
  split.
  - intros Hnone e He. apply list_elem_of_fmap in He as (i & -> & Hi).
    rewrite Hmark. rewrite Hnone in Hi. simpl in Hi. rewrite app_nil_r in Hi.
    apply list_elem_of_fmap in Hi as (j & -> & _).
    destruct cur; try done.
  - intros Hset Hrefl. rewrite Hset. simpl.
    destruct (py_in cur (VInt <$> found)) eqn:Hin; simpl.
    + rewrite app_nil_r.
      apply py_in_ints in Hin as (i & Hi & Heq).
      exists (mk (VInt i)). split; [|split; [|split]].
      * apply list_elem_of_fmap. exists (VInt i). split; [done|].
        apply list_elem_of_fmap. by exists i.
      * by apply Hmark.
      * done.
      * intros e' He' Hm. apply list_elem_of_fmap in He' as (v & -> & Hv).
        apply list_elem_of_fmap in Hv as (j & -> & _).
        apply Hmark in Hm. by rewrite (py_eq_int_inj j i cur Hm Heq).
    + exists (mk cur). split; [|split; [|split]].
      * apply list_elem_of_fmap. exists cur. split; [done|].
        apply elem_of_app. right. by apply list_elem_of_singleton.
      * by apply Hmark.
      * done.
      * intros e' He' Hm. apply list_elem_of_fmap in He' as (v & -> & Hv).
        apply Hmark in Hm. apply elem_of_app in Hv as [Hv|Hv].
        -- apply list_elem_of_fmap in Hv as (j & -> & Hj).
           assert (py_in cur (VInt <$> found) = true); [|congruence].
           apply py_in_ints. by exists j.
        -- apply list_elem_of_singleton in Hv. by subst v.
Qed.

End cameras_facts.

Lemma api_cameras_marks_selected_witness :
  ∃ e, e ∈ @api_cameras plain_format (λ _, false) (λ _, false) true store_cam2
       ∧ entry_label e = "Camera ? (current)"
       ∧ entry_index e = VInt 2.
Proof.
  destruct (proj2 (@api_cameras_marks_selected plain_format (λ _, false)
                     (λ _, false) true store_cam2))
    as (e & He & Hm & Hidx & _).
  - vm_compute. reflexivity.
  - vm_compute. reflexivity.
  - exists e. split; [exact He|].
    assert (@api_cameras plain_format (λ _, false) (λ _, false) true store_cam2
            = [{| entry_index := VInt 2; entry_label := "Camera ? (current)" |}])
      as Hall by (vm_compute; reflexivity).
    rewrite Hall in He. apply list_elem_of_singleton in He. by subst e.
Defined.

(** ** The loop: devices, waiting and detection *)

Section loop_more.
Context `{PyLiterals}.

Lemma switch_camera_cases (w : world) (cam : pyval) (s : loop_state) (t : list event) :
  switch_camera w cam s t
  = let rel := match cap s with
               | Some _ => [EvRelease (current_cam_index s)]
               | None => []
               end in
    let fresh c := {| smooth := None; frame_idx := 0;
                      current_cam_index := cam; cap := c |} in
    if is_none cam then (fresh None, t ++ rel ++ [EvSleep 100], Continue)
    else match w_open_exn w with
         | Some e => (fresh None, t ++ rel ++ [EvOpen cam], Raised e)
         | None =>
             if w_open_ok w
             then (fresh (Some cam), t ++ rel ++ [EvOpen cam], Next tt)
             else (fresh None, t ++ rel ++ [EvOpen cam; EvSleep 1000], Continue)
         end.
Proof.
  unfold switch_camera. loop_unfold. simpl.
  destruct (cap s) eqn:Hc; simpl; destruct (is_none cam); simpl;
    try destruct (w_open_exn w); simpl;
    try destruct (w_open_ok w); simpl; rewrite <- ?app_assoc, ?Hc; by simpl.
Qed.

Lemma camera_loop_body_same (w : world) (s : loop_state) (t : list event)
    (cam : pyval) :
  w_cfg w !! "camera_index" = Some cam →
  py_eq cam (current_cam_index s) = true →
  camera_loop_body w s t
  = match cap s with
    | None => (s, t ++ [EvSleep 100], Continue)
    | Some _ =>
        match w_read w with
        | None => (s, t ++ [EvSleep 50], Continue)
        | Some frame => process_frame w frame s t
        end
    end.
Proof.
  intros Hcam Heq. unfold camera_loop_body, subscript. rewrite Hcam.
  loop_unfold. rewrite Heq. simpl.
  destruct (cap s); [|done]. by destruct (w_read w).
Qed.

Lemma camera_loop_body_changed (w : world) (s : loop_state) (t : list event)
    (cam : pyval) :
  w_cfg w !! "camera_index" = Some cam →
  py_eq cam (current_cam_index s) = false →
  camera_loop_body w s t
  = match switch_camera w cam s t with
    | (s1, t1, Next _) =>
        match cap s1 with
        | None => (s1, t1 ++ [EvSleep 100], Continue)
        | Some _ =>
            match w_read w with
            | None => (s1, t1 ++ [EvSleep 50], Continue)
            | Some frame => process_frame w frame s1 t1
            end
        end
    | (s1, t1, Continue) => (s1, t1, Continue)
    | (s1, t1, Raised e) => (s1, t1, Raised e)
    end.
Proof.
  intros Hcam Heq. unfold camera_loop_body, subscript. rewrite Hcam.
  loop_unfold. rewrite Heq. simpl.
  destruct (switch_camera w cam s t) as [[s1 t1] [[]| |e]]; try done.
  destruct (cap s1); [|done]. by destruct (w_read w).
Qed.

Lemma camera_loop_body_no_key (w : world) (s : loop_state) (t : list event) :
  w_cfg w !! "camera_index" = None →
  camera_loop_body w s t = (s, t, Raised KeyError).
Proof.
  intros Hcam. unfold camera_loop_body, subscript. rewrite Hcam. by loop_unfold.
Qed.

(** X12: when the configured camera index differs from the one the loop
    holds open, the iteration first releases that device, once, records
    the new index and forgets the estimate and the frame count: after the
    iteration the frame counter is 0 or 1 and the estimate is absent or
    comes from a detection on the new camera's first frame alone.  The
    loop holds a device afterwards only if the new index is not [None]
    and the open succeeded. *)
Theorem camera_switch_resets (w : world) (s : loop_state) (cam dev : pyval) :
  w_cfg w !! "camera_index" = Some cam →
  py_eq cam (current_cam_index s) = false →
  cap s = Some dev →
  let '(s', t', _) := iterate w s in
  (∃ rest, t' = EvRelease (current_cam_index s) :: rest
           ∧ Forall (λ ev, ∀ i, ev ≠ EvRelease i) rest)
  ∧ current_cam_index s' = cam
  ∧ (frame_idx s' = 0 ∨ frame_idx s' = 1)
  ∧ (smooth s' = None
     ∨ ∃ alpha f r,
         w_faces w = Ok (f :: r)
         ∧ smooth s' = Some (update_estimate alpha None (max_by_area f r)))
  ∧ (cap s' = None
     ∨ (cap s' = Some cam ∧ is_none cam = false ∧ w_open_ok w = true)).
Proof.
  intros Hcam Hne Hcap. unfold iterate.
  rewrite (camera_loop_body_changed w s [] cam Hcam Hne).
  rewrite switch_camera_cases, Hcap. cbv zeta. simpl app.
  destruct (is_none cam) eqn:Hnone.
  { split; [eexists; split; [done|]; by repeat constructor|]. by auto 10. }
  destruct (w_open_exn w) as [e|];
    [split; [eexists; split; [done|]; by repeat constructor|]; by auto 10|].
  destruct (w_open_ok w) eqn:Hopen; cbn [cap];
    [|split; [eexists; split; [done|]; by repeat constructor|]; by auto 10].
  destruct (w_read w) as [frame|].
  - match goal with
    | |- context [process_frame w frame ?s1 ?t1] =>
        pose proof (process_frame_cases w frame s1 t1) as Hp;
        destruct (process_frame w frame s1 t1) as [[s' t'] fl]
    end.
    cbn [cap current_cam_index frame_idx smooth] in Hp.
    destruct Hp as (Hc & Hi & Hf & Hs & Ht).
    split; [|by auto 10].
    destruct Ht as [-> | ->]; eexists; (split; [done|]); by repeat constructor.
  - split; [eexists; split; [done|]; by repeat constructor|]. by auto 10.
Qed.

(** X13: without a capture device and with the configured index equal to
    the recorded one, the loop only waits: each iteration sleeps 100 ms
    and changes nothing.  This is the loop before a camera is selected,
    and also after an open has failed: the open is not tried again until
    the configured index changes. *)
Theorem loop_waits_without_device (ws : list world) (s : loop_state)
    (t : list event) :
  cap s = None →
  Forall (λ w, ∃ cam, w_cfg w !! "camera_index" = Some cam
                      ∧ py_eq cam (current_cam_index s) = true) ws →
  camera_loop ws s t = (s, t ++ replicate (length ws) (EvSleep 100), None).
Proof.
  intros Hcap Hws. revert t. induction Hws as [|w ws (cam & Hcam & Heq) _ IH];
    intros t; simpl.
  - by rewrite app_nil_r.
  - rewrite (camera_loop_body_same w s t cam Hcam Heq), Hcap.
    rewrite IH. by rewrite <- app_assoc.
Qed.

(** X14: while reads fail on the open device of an unchanged index, the
    loop keeps the device, the estimate and the frame counter as they
    are, and only sleeps 50 ms per attempt: it neither releases nor
    reopens the device. *)
Theorem loop_keeps_device_on_read_failure (ws : list world) (s : loop_state)
    (t : list event) (dev : pyval) :
  cap s = Some dev →
  Forall (λ w, w_read w = None
               ∧ ∃ cam, w_cfg w !! "camera_index" = Some cam
                        ∧ py_eq cam (current_cam_index s) = true) ws →
  camera_loop ws s t = (s, t ++ replicate (length ws) (EvSleep 50), None).
Proof.
  intros Hcap Hws. revert t.
  induction Hws as [|w ws (Hread & cam & Hcam & Heq) _ IH]; intros t; simpl.
  - by rewrite app_nil_r.
  - rewrite (camera_loop_body_same w s t cam Hcam Heq), Hcap, Hread.
    rewrite IH. by rewrite <- app_assoc.
Qed.

Lemma camera_loop_body_handle (w : world) (s : loop_state) (t : list event) :
  handle_matches s → handle_matches (camera_loop_body w s t).1.1.
Proof.
  intros Hinv.
  destruct (w_cfg w !! "camera_index") as [cam|] eqn:Hcam;
    [|by rewrite camera_loop_body_no_key].
  assert (∀ s1 t1, handle_matches s1 →
            handle_matches
              (match cap s1 with
               | None => (s1, t1 ++ [EvSleep 100], Continue)
               | Some _ =>
                   match w_read w with
                   | None => (s1, t1 ++ [EvSleep 50], Continue)
                   | Some frame => process_frame w frame s1 t1
                   end
               end).1.1) as Hrest.
  { intros s1 t1 H1. destruct (cap s1) eqn:Hc1; [|done].
    destruct (w_read w) as [frame|]; [|done].
    pose proof (process_frame_cases w frame s1 t1) as Hp.
    destruct (process_frame w frame s1 t1) as [[s' t'] fl].
    destruct Hp as (Hc & Hi & _). unfold handle_matches in *. simpl.
    by rewrite Hc, Hi. }
  destruct (py_eq cam (current_cam_index s)) eqn:Heq.
  - rewrite (camera_loop_body_same w s t cam Hcam Heq). by apply Hrest.
  - rewrite (camera_loop_body_changed w s t cam Hcam Heq), switch_camera_cases.
    cbv zeta. destruct (is_none cam) eqn:Hnone; [done|].
    destruct (w_open_exn w); [done|].
    destruct (w_open_ok w); [|done]. by apply Hrest.
Qed.

(** X15: the capture handle the loop holds always belongs to the index
    it has recorded as current, and that index is not [None]; this holds
    from the start of [camera_loop] on, through any number of iterations
    and whatever the configuration and the devices do. *)
Theorem handle_always_matches (ws : list world) (s : loop_state) (t : list event) :
  handle_matches s → handle_matches (camera_loop ws s t).1.1.
Proof.
  revert s t. induction ws as [|w ws IH]; intros s t Hinv; [done|]. simpl.
  pose proof (camera_loop_body_handle w s t Hinv) as Hb.
  destruct (camera_loop_body w s t) as [[s' t'] [[]| |e]]; simpl in *;
    by try apply IH.
Qed.

(** X16: an iteration touches the capture device only on a change of the
    configured index: it releases only the device it holds, under the
    recorded index, and opens only the newly configured index, never
    [None]; with an unchanged index the trace has no release and no
    open. *)
Theorem device_events_need_index_change (w : world) (s : loop_state) :
  let '(_, t', _) := iterate w s in
  ∀ i,
    (EvRelease i ∈ t' →
     i = current_cam_index s ∧ is_Some (cap s)
     ∧ ∃ cam, w_cfg w !! "camera_index" = Some cam
              ∧ py_eq cam (current_cam_index s) = false)
    ∧ (EvOpen i ∈ t' →
       w_cfg w !! "camera_index" = Some i ∧ is_none i = false
       ∧ py_eq i (current_cam_index s) = false).
Proof.
  unfold iterate.
  assert (∀ s1 (t1 : list event) (P : event → Prop),
            P (EvSleep 100) → P (EvSleep 50) → P EvPace → (∀ img, P (EvSend img)) →
            Forall P t1 →
            Forall P
              (match cap s1 with
               | None => (s1, t1 ++ [EvSleep 100], Continue)
               | Some _ =>
                   match w_read w with
                   | None => (s1, t1 ++ [EvSleep 50], Continue)
                   | Some frame => process_frame w frame s1 t1
                   end
               end).1.2) as Hrest.
  { intros s1 t1 P P100 P50 Ppace Psend Ht1.
    destruct (cap s1); [|apply Forall_app; by split; [|repeat constructor]].
    destruct (w_read w) as [frame|];
      [|apply Forall_app; by split; [|repeat constructor]].
    pose proof (process_frame_cases w frame s1 t1) as Hp.
    destruct (process_frame w frame s1 t1) as [[s' t'] fl].
    destruct Hp as (_ & _ & _ & _ & [-> | ->]); [done|].
    apply Forall_app. split; [done|]. by repeat constructor. }
  destruct (w_cfg w !! "camera_index") as [cam|] eqn:Hcam;
    [|rewrite camera_loop_body_no_key by done;
      intros i; split; intros Hin; by apply elem_of_nil in Hin].
  set (P := λ ev : event,
         ∀ i, (ev = EvRelease i →
               i = current_cam_index s ∧ is_Some (cap s)
               ∧ py_eq cam (current_cam_index s) = false)
              ∧ (ev = EvOpen i →
                 cam = i ∧ is_none i = false
                 ∧ py_eq i (current_cam_index s) = false)).
  assert (Forall P (camera_loop_body w s []).1.2) as Hall.
  { destruct (py_eq cam (current_cam_index s)) eqn:Heq.
    - rewrite (camera_loop_body_same w s [] cam Hcam Heq).
      apply Hrest; done.
    - rewrite (camera_loop_body_changed w s [] cam Hcam Heq), switch_camera_cases.
      cbv zeta. simpl app.
      assert (Forall P match cap s with
                       | Some _ => [EvRelease (current_cam_index s)]
                       | None => []
                       end) as Hrel.
      { destruct (cap s) eqn:Hc; [|constructor]. constructor; [|constructor].
        intros i. split; [|done]. intros [= <-]. by eauto. }
      destruct (is_none cam) eqn:Hnone.
      { simpl. apply Forall_app. split; [done|]. by repeat constructor. }
      assert (P (EvOpen cam)) as Hopen.
      { intros i. split; [done|]. by intros [= <-]. }
      destruct (w_open_exn w).
      { simpl. apply Forall_app. split; [done|].
        constructor; [exact Hopen|constructor]. }
      destruct (w_open_ok w).
      + apply Hrest; try done. apply Forall_app. split; [done|].
        constructor; [exact Hopen|constructor].
      + simpl. apply Forall_app. split; [done|].
        constructor; [exact Hopen|]. constructor; [done|constructor]. }
  destruct (camera_loop_body w s []) as [[s' t'] fl]. simpl in Hall.
  intros i. split; intros Hin;
    apply (proj1 (Forall_forall _ _) Hall) in Hin; destruct (Hin i) as [Hr Ho].
  - destruct (Hr eq_refl) as (? & ? & ?). eauto.
  - destruct (Ho eq_refl) as (<- & ? & ?). eauto.
Qed.

Lemma camera_loop_body_sends_640 (w : world) (s : loop_state) (t : list event) :
  Forall is_send_640 t → Forall is_send_640 (camera_loop_body w s t).1.2.
Proof.
  intros Ht.
  assert (∀ s1 t1, Forall is_send_640 t1 →
            Forall is_send_640
              (match cap s1 with
               | None => (s1, t1 ++ [EvSleep 100], Continue)
               | Some _ =>
                   match w_read w with
                   | None => (s1, t1 ++ [EvSleep 50], Continue)
                   | Some frame => process_frame w frame s1 t1
                   end
               end).1.2) as Hrest.
  { intros s1 t1 Ht1.
    destruct (cap s1); [|apply Forall_app; by split; [|repeat constructor]].
    destruct (w_read w) as [frame|];
      [|apply Forall_app; by split; [|repeat constructor]].
    pose proof (process_frame_cases w frame s1 t1) as Hp.
    destruct (process_frame w frame s1 t1) as [[s' t'] fl].
    destruct Hp as (_ & _ & _ & _ & [-> | ->]); [done|].
    apply Forall_app. split; [done|].
    constructor; [by intros ? [= <-]|]. by repeat constructor. }
  destruct (w_cfg w !! "camera_index") as [cam|] eqn:Hcam;
    [|by rewrite camera_loop_body_no_key].
  destruct (py_eq cam (current_cam_index s)) eqn:Heq.
  - rewrite (camera_loop_body_same w s t cam Hcam Heq). by apply Hrest.
  - rewrite (camera_loop_body_changed w s t cam Hcam Heq), switch_camera_cases.
    cbv zeta.
    assert (Forall is_send_640 match cap s with
                               | Some _ => [EvRelease (current_cam_index s)]
                               | None => []
                               end) as Hrel
      by (destruct (cap s); by repeat constructor).
    destruct (is_none cam).
    { simpl. apply Forall_app. split; [done|]. apply Forall_app.
      split; [done|]. by repeat constructor. }
    destruct (w_open_exn w).
    { simpl. apply Forall_app. split; [done|]. apply Forall_app.
      split; [done|]. by repeat constructor. }
    destruct (w_open_ok w).
    + apply Hrest. apply Forall_app. split; [done|]. apply Forall_app.
      split; [done|]. by repeat constructor.
    + simpl. apply Forall_app. split; [done|]. apply Forall_app.
      split; [done|]. by repeat constructor.
Qed.

(** X17: over a whole run of the loop, of any length and under any
    sequence of configurations, device answers and detections, every
    image handed to the virtual camera is 640x640. *)
Theorem every_sent_image_640 (ws : list world) (s : loop_state) (t : list event) :
  Forall is_send_640 t → Forall is_send_640 (camera_loop ws s t).1.2.
Proof.
  revert s t. induction ws as [|w ws IH]; intros s t Ht; [done|]. simpl.
  pose proof (camera_loop_body_sends_640 w s t Ht) as Hb.
  destruct (camera_loop_body w s t) as [[s' t'] [[]| |e]]; simpl in *;
    by try apply IH.
Qed.

(** X18: detection is consulted only on frames whose number is a
    multiple of the configured interval, and an interval below 1 counts
    as 1: on any other frame the estimate is left as it is whatever is in
    front of the camera; on a detection frame the estimate becomes what
    the detector's answer makes of it; and with an interval of 1 or less
    every frame is a detection frame. *)
Theorem detection_gating (w : world) (frame : shape) (s : loop_state)
    (t : list event) (o v va vm : pyval) (n : Z) (alpha margin : float) :
  w_cfg w !! "orientation" = Some o →
  w_cfg w !! "detection_every_n_frames" = Some v → py_int v = Ok n →
  w_cfg w !! "smoothing_alpha" = Some va → py_float va = Ok alpha →
  w_cfg w !! "margin_factor" = Some vm → py_float vm = Ok margin →
  let '(s', _, _) := process_frame w frame s t in
  ((frame_idx s + 1) mod Z.max 1 n ≠ 0 → smooth s' = smooth s)
  ∧ ((frame_idx s + 1) mod Z.max 1 n = 0 →
     ∀ faces, w_faces w = Ok faces → smooth s' = track alpha (smooth s) faces)
  ∧ (n ≤ 1 → (frame_idx s + 1) mod Z.max 1 n = 0).
Proof.
  intros Ho Hv Hn Hva Ha Hvm Hm.
  unfold process_frame, subscript. rewrite Ho, Hv, Hva, Hvm.
  loop_unfold. res_step. rewrite Hn, Ha, Hm. res_step. cbn [frame_idx].
  match goal with
  | |- context [detect w ?d alpha ?s1 t] =>
      pose proof (detect_cases w d alpha s1 t) as Hd;
      assert (detect w d alpha s1 t
              = if frame_idx s1 mod d =? 0
                then match w_faces w with
                     | Ok faces =>
                         ({| smooth := track alpha (smooth s1) faces;
                             frame_idx := frame_idx s1;
                             current_cam_index := current_cam_index s1;
                             cap := cap s1 |}, t, Next tt)
                     | Raise e => (s1, t, Raised e)
                     end
                else (s1, t, Next tt)) as Hdet
        by (unfold detect; loop_unfold; destruct (_ =? 0); [|done];
            by destruct (w_faces w));
      destruct (detect w d alpha s1 t) as [[s2 t2] fl2]
  end.
  cbn [frame_idx smooth current_cam_index cap] in Hdet.
  assert (smooth (let '(s', _, _) :=
                    match fl2 with
                    | Next _ => send_frame (apply_orientation frame o) margin s2 t2
                    | Continue => (s2, t2, Continue)
                    | Raised e => (s2, t2, Raised e)
                    end in s') = smooth s2) as Hkeep.
  { destruct fl2; try done.
    pose proof (send_frame_cases (apply_orientation frame o) margin s2 t2) as Hs.
    destruct (send_frame _ margin s2 t2) as [[s3 t3] fl3]. by destruct Hs as [-> _]. }
  destruct (match fl2 with Next _ => _ | Continue => _ | Raised e => _ end)
    as [[s' t'] fl]. simpl in Hkeep. rewrite Hkeep.
  split; [|split].
  - intros Hmod. apply Z.eqb_neq in Hmod. rewrite Hmod in Hdet.
    injection Hdet as Hs2 _ _. by rewrite Hs2.
  - intros Hmod faces Hf. apply Z.eqb_eq in Hmod. rewrite Hmod, Hf in Hdet.
    injection Hdet as Hs2 _ _. by rewrite Hs2.
  - intros Hn1. replace (Z.max 1 n) with 1 by lia. apply Z.mod_1_r.
Qed.

End loop_more.

Lemma camera_switch_resets_witness :
  let '(s', t', _) := @iterate no_numeric_strings world_cam2 state_tracking in
  (∃ rest, t' = EvRelease (current_cam_index state_tracking) :: rest
           ∧ Forall (λ ev, ∀ i, ev ≠ EvRelease i) rest)
  ∧ current_cam_index s' = VInt 2
  ∧ (frame_idx s' = 0 ∨ frame_idx s' = 1)
  ∧ (smooth s' = None
     ∨ ∃ alpha f r,
         w_faces world_cam2 = Ok (f :: r)
         ∧ smooth s' = Some (update_estimate alpha None (max_by_area f r)))
  ∧ (cap s' = None
     ∨ (cap s' = Some (VInt 2) ∧ is_none (VInt 2) = false
        ∧ w_open_ok world_cam2 = true)).
Proof.
  apply (@camera_switch_resets no_numeric_strings world_cam2 state_tracking
           (VInt 2) (VInt 1)).
  - vm_compute. reflexivity.
  - vm_compute. reflexivity.
  - reflexivity.
Defined.

Lemma loop_waits_without_device_witness :
  @camera_loop no_numeric_strings [world_idle; world_idle; world_idle]
    initial_state []
  = (initial_state, [] ++ replicate 3 (EvSleep 100), None).
Proof.
  apply (@loop_waits_without_device no_numeric_strings
           [world_idle; world_idle; world_idle] initial_state []).
  - reflexivity.
  - repeat constructor; exists VNone; split; vm_compute; reflexivity.
Defined.

Lemma loop_keeps_device_on_read_failure_witness :
  @camera_loop no_numeric_strings [world_no_frame; world_no_frame]
    state_tracking []
  = (state_tracking, [] ++ replicate 2 (EvSleep 50), None).
Proof.
  apply (@loop_keeps_device_on_read_failure no_numeric_strings
           [world_no_frame; world_no_frame] state_tracking [] (VInt 1)).
  - reflexivity.
  - repeat constructor; exists (VInt 1); split; vm_compute; reflexivity.
Defined.

Lemma handle_always_matches_witness :
  handle_matches
    (@camera_loop no_numeric_strings [world_none; world_cam2; world_idle]
       initial_state []).1.1.
Proof.
  apply (@handle_always_matches no_numeric_strings
           [world_none; world_cam2; world_idle] initial_state []).
  simpl. exact I.
Defined.

Lemma every_sent_image_640_witness :
  Forall is_send_640
    (@camera_loop no_numeric_strings [world_none; world_cam2; world_cw]
       initial_state []).1.2.
Proof.
  apply (@every_sent_image_640 no_numeric_strings
           [world_none; world_cam2; world_cw] initial_state []).
  constructor.
Defined.

Lemma detection_gating_witness :
  let '(s', _, _) :=
    @process_frame no_numeric_strings world_none frame_vga state_tracking [] in
  ((frame_idx state_tracking + 1) mod Z.max 1 10 ≠ 0
   → smooth s' = smooth state_tracking)
  ∧ ((frame_idx state_tracking + 1) mod Z.max 1 10 = 0 →
     ∀ faces, w_faces world_none = Ok faces
              → smooth s' = track float_0_02 (smooth state_tracking) faces)
  ∧ (10 ≤ 1 → (frame_idx state_tracking + 1) mod Z.max 1 10 = 0).
Proof.
  apply (@detection_gating no_numeric_strings world_none frame_vga state_tracking []
           (VStr "none") (VInt 10) (VFloat float_0_02) (VFloat float_2_8)
           10 float_0_02 float_2_8).
  - vm_compute. reflexivity.
  - vm_compute. reflexivity.
  - reflexivity.
  - vm_compute. reflexivity.
  - reflexivity.
  - vm_compute. reflexivity.
  - reflexivity.
Defined.

(** ** Face selection, smoothing and cropping *)

Lemma max_by_area_first (pre post rest : list box) (best : box) :
  Forall (λ g, area g < area best) pre →
  Forall (λ g, area g ≤ area best) post →
  ∃ l1 l2,
    pre ++ best :: post ++ rest = l1 ++ max_by_area best rest :: l2
    ∧ Forall (λ g, area g < area (max_by_area best rest)) l1
    ∧ Forall (λ g, area g ≤ area (max_by_area best rest)) l2.
Proof.
  revert pre post best. induction rest as [|f rest IH]; intros pre post best Hpre Hpost.
  - simpl. exists pre, post. by rewrite app_nil_r.
  - simpl. destruct (Z.ltb_spec (area best) (area f)) as [Hlt|Hge].
    + destruct (IH (pre ++ best :: post) [] f) as (l1 & l2 & Heq & H1 & H2).
      * apply Forall_app. split.
        -- eapply Forall_impl; [exact Hpre|]. simpl. lia.
        -- constructor; [done|]. eapply Forall_impl; [exact Hpost|]. simpl. lia.
      * constructor.
      * exists l1, l2. split; [|done]. rewrite <- Heq. simpl.
        by rewrite <- !app_assoc.
    + destruct (IH pre (post ++ [f]) best) as (l1 & l2 & Heq & H1 & H2).
      * done.
      * apply Forall_app. split; [done|]. by repeat constructor.
      * exists l1, l2. split; [|done]. rewrite <- Heq. by rewrite <- !app_assoc.
Qed.

Lemma int32_small (z : Z) : - 2 ^ 31 ≤ z < 2 ^ 31 → int32 z = z.
Proof. intros Hz. unfold int32. rewrite Z.mod_small; lia. Qed.

(** X19: of the faces the detector returns, the loop follows the one
    with the largest product [w * h] as int32 arithmetic computes it, and
    among equally large ones the first in the detector's order.  That
    product is the face's area whenever the area fits in 31 bits; a larger
    one wraps around, and the face can lose to a smaller one. *)
Theorem max_by_area_largest_first (f : box) (rest : list box) :
  (∃ l1 l2,
     f :: rest = l1 ++ max_by_area f rest :: l2
     ∧ Forall (λ g, area g < area (max_by_area f rest)) l1
     ∧ Forall (λ g, area g ≤ area (max_by_area f rest)) l2)
  ∧ (∀ x y w h, - 2 ^ 31 ≤ w * h < 2 ^ 31 → area (x, y, w, h) = w * h)
  ∧ max_by_area (0, 0, 46341, 46341) [(0, 0, 10, 10)] = (0, 0, 10, 10).
Proof.
  split; [|split; [|done]].
  - destruct (max_by_area_first [] [] rest f) as (l1 & l2 & Heq & H1 & H2);
      [constructor..|].
    by exists l1, l2.
  - intros x y w h Hfit. unfold area. by apply int32_small.
Qed.

Section crop_more.
Context {A : Type} `{PyNumber A}.

Lemma plan_square_ok_inv (h_f w_f : Z) (e : estimate A) (margin : A) (s : square) :
  plan_square h_f w_f e margin = Ok s →
  ∃ d cx cy,
    desired_size e margin = Ok d
    ∧ num_round (smooth_cx e) = Ok cx
    ∧ num_round (smooth_cy e) = Ok cy.
Proof.
  unfold plan_square.
  destruct (desired_size e margin) as [d|]; [|done]. res_step.
  destruct (num_round (smooth_cx e)) as [cx|]; [|done]. res_step.
  destruct (num_round (smooth_cy e)) as [cy|]; [|done].
  intros _. by exists d, cx, cy.
Qed.

(** X21: on a frame at least 50 pixels high and wide, the planned
    square contains the rounded face centre whenever that centre lies in
    the frame: shifting the square into the frame never pushes the face
    centre out of it. *)
Theorem planned_square_holds_centre (h_f w_f : Z) (e : estimate A) (margin : A)
    (d cx cy : Z) :
  50 ≤ h_f → 50 ≤ w_f →
  desired_size e margin = Ok d →
  num_round (smooth_cx e) = Ok cx →
  num_round (smooth_cy e) = Ok cy →
  0 ≤ cx < w_f → 0 ≤ cy < h_f →
  ∃ s, plan_square h_f w_f e margin = Ok s
       ∧ sq_x s ≤ cx < sq_x s + sq_size s
       ∧ sq_y s ≤ cy < sq_y s + sq_size s.
Proof.
  intros Hh Hw Hd Hx Hy Hcx Hcy.
  rewrite (plan_square_value h_f w_f e margin d cx cy Hd Hx Hy).
  eexists. split; [reflexivity|]. simpl.
  pose proof (clamp_size_bounds h_f w_f d Hh Hw) as Hs.
  set (size := clamp_size h_f w_f d) in *.
  assert (0 ≤ size / 2 < size) as Hhalf.
  { split; [apply Z.div_pos; lia|apply Z.div_lt; lia]. }
  lia.
Qed.

(** X22: on a frame at least 50 pixels high and wide the defensive
    fallback never fires: whenever the planning arithmetic returns a
    square, that square is the crop, with its side in both dimensions;
    and when the arithmetic raises, the exception is passed on. *)
Theorem fallback_unused_on_large_frames (frame : shape) (e : estimate A) (margin : A) :
  50 ≤ rows frame → 50 ≤ cols frame →
  select_crop frame (Some e) margin
  = s ← plan_square (rows frame) (cols frame) e margin;
    mret (s, {| rows := sq_size s; cols := sq_size s |}).
Proof.
  intros Hr Hc. unfold select_crop.
  destruct (plan_square (rows frame) (cols frame) e margin) as [s|ex] eqn:Hp;
    res_step; [|done].
  destruct (plan_square_ok_inv _ _ _ _ _ Hp) as (d & cx & cy & Hd & Hx & Hy).
  rewrite (plan_square_value _ _ _ _ d cx cy Hd Hx Hy) in Hp.
  injection Hp as <-.
  pose proof (clamp_size_bounds (rows frame) (cols frame) d Hr Hc) as Hs.
  set (size := clamp_size (rows frame) (cols frame) d) in *.
  unfold slice_square, np_slice. simpl.
  rewrite !slice_len_inside by lia. simpl.
  replace (np_size _ =? 0) with false
    by (symmetry; apply Z.eqb_neq; unfold np_size; simpl; nia).
  by rewrite Z.eqb_refl.
Qed.

(** X23: without an estimate the crop is the centred square of side
    [min(height, width)]: it touches the frame's border on its shorter
    axis, and on the other axis the strips left beside it differ by at
    most one pixel, the smaller one first. *)
Theorem centre_crop_is_centred (frame : shape) (margin : A) :
  0 ≤ rows frame → 0 ≤ cols frame →
  ∃ s, select_crop frame None margin
       = Ok (s, {| rows := sq_size s; cols := sq_size s |})
       ∧ sq_size s = Z.min (rows frame) (cols frame)
       ∧ (sq_x s = 0 ∨ sq_y s = 0)
       ∧ 0 ≤ (cols frame - (sq_x s + sq_size s)) - sq_x s ≤ 1
       ∧ 0 ≤ (rows frame - (sq_y s + sq_size s)) - sq_y s ≤ 1.
Proof.
  intros Hr Hc.
  destruct (center_square_inside frame Hr Hc) as (_ & _ & _ & _ & Hs & Hcrop).
  exists (center_square (rows frame) (cols frame)).
  split; [unfold select_crop; res_step; by rewrite Hcrop|].
  split; [done|]. unfold center_square. simpl.
  set (size := Z.min (rows frame) (cols frame)).
  pose proof (Z.div_mod (cols frame - size) 2 ltac:(lia)) as Hx.
  pose proof (Z.mod_pos_bound (cols frame - size) 2 ltac:(lia)) as Hxm.
  pose proof (Z.div_mod (rows frame - size) 2 ltac:(lia)) as Hy.
  pose proof (Z.mod_pos_bound (rows frame - size) 2 ltac:(lia)) as Hym.
  assert (cols frame - size = 0 ∨ rows frame - size = 0) as [Hz|Hz] by lia;
    rewrite Hz in *; change (0 / 2) with 0 in *; lia.
Qed.

(** X24: on a frame with a dimension below 50 the planned side is 50
    all the same, larger than the frame.  If only one dimension is below
    50 the slice is not square and the centred square is used; if both
    are, the negative corner makes the slice wrap around: it is the
    bottom-right corner of [min(h, 50 - h)] by [min(w, 50 - w)] pixels,
    which is kept as the crop when it happens to be square, whatever the
    face position. *)
Theorem crop_on_small_frames (frame : shape) (e : estimate A) (margin : A) :
  0 < rows frame → 0 < cols frame →
  convertible (Some e) margin →
  let h_f := rows frame in
  let w_f := cols frame in
  let centre := center_square h_f w_f in
  (h_f < 50 ≤ w_f ∨ w_f < 50 ≤ h_f →
   select_crop frame (Some e) margin
   = Ok (centre, {| rows := Z.min h_f w_f; cols := Z.min h_f w_f |}))
  ∧ (h_f < 50 → w_f < 50 →
     select_crop frame (Some e) margin
     = if Z.min h_f (50 - h_f) =? Z.min w_f (50 - w_f)
       then Ok ({| sq_x := w_f - 50; sq_y := h_f - 50; sq_size := 50 |},
                {| rows := Z.min h_f (50 - h_f); cols := Z.min w_f (50 - w_f) |})
       else Ok (centre, {| rows := Z.min h_f w_f; cols := Z.min h_f w_f |})).
Proof.
  intros Hr Hc (Hd & Hx & Hy) h_f w_f centre. subst h_f w_f centre.
  destruct (desired_size e margin) as [d|] eqn:Ed; [|done].
  destruct (num_round (smooth_cx e)) as [cx|] eqn:Ex; [|done].
  destruct (num_round (smooth_cy e)) as [cy|] eqn:Ey; [|done].
  destruct (center_square_inside frame) as (_ & _ & _ & _ & Hs & Hcrop); [lia..|].
  unfold select_crop.
  rewrite (plan_square_value _ _ _ _ d cx cy Ed Ex Ey). res_step.
  rewrite Hcrop, Hs.
  unfold slice_square, np_slice, np_size, slice_len, slice_bound, clamp_size.
  cbn [sq_x sq_y sq_size rows cols].
  split.
  - intros Hdim.
    replace (Z.max 50 (Z.min d (Z.min (rows frame) (cols frame)))) with 50 by lia.
    change (50 / 2) with 25.
    match goal with
    | |- (if ?b then _ else _) = _ => assert (b = true) as ->; [|done]
    end.
    apply orb_true_iff. right. apply negb_true_iff, Z.eqb_neq.
    repeat match goal with
      | |- context [?a <? ?b] => destruct (Z.ltb_spec a b)
      end; lia.
  - intros Hh Hw.
    replace (Z.max 50 (Z.min d (Z.min (rows frame) (cols frame)))) with 50 by lia.
    change (50 / 2) with 25.
    assert (Z.min (Z.max 0 (cy - 25)) (rows frame - 50) = rows frame - 50) as -> by lia.
    assert (Z.min (Z.max 0 (cx - 25)) (cols frame - 50) = cols frame - 50) as -> by lia.
    replace (rows frame - 50 + 50) with (rows frame) by lia.
    replace (cols frame - 50 + 50) with (cols frame) by lia.
    destruct (Z.ltb_spec (rows frame - 50) 0); [|lia].
    destruct (Z.ltb_spec (cols frame - 50) 0); [|lia].
    destruct (Z.ltb_spec (rows frame) 0); [lia|].
    destruct (Z.ltb_spec (cols frame) 0); [lia|].
    replace (Z.max 0 (Z.min (rows frame) (rows frame)
                      - Z.max (rows frame - 50 + rows frame) 0))
      with (Z.min (rows frame) (50 - rows frame)) by lia.
    replace (Z.max 0 (Z.min (cols frame) (cols frame)
                      - Z.max (cols frame - 50 + cols frame) 0))
      with (Z.min (cols frame) (50 - cols frame)) by lia.
    destruct (Z.eqb_spec (Z.min (rows frame) (50 - rows frame))
                         (Z.min (cols frame) (50 - cols frame))) as [Heq|Hne].
    + replace (_ * _ * 3 =? 0) with false; [done|].
      symmetry. apply Z.eqb_neq. nia.
    + by rewrite orb_true_r.
Qed.

End crop_more.

Lemma planned_square_holds_centre_witness :
  ∃ s, plan_square 480 640 estimate_vga float_2_8 = Ok s
       ∧ sq_x s ≤ 320 < sq_x s + sq_size s
       ∧ sq_y s ≤ 240 < sq_y s + sq_size s.
Proof.
  apply (planned_square_holds_centre 480 640 estimate_vga float_2_8 280 320 240);
    try lia; vm_compute; reflexivity.
Defined.

Lemma fallback_unused_on_large_frames_witness :
  select_crop frame_vga (Some estimate_vga) float_2_8
  = s ← plan_square (rows frame_vga) (cols frame_vga) estimate_vga float_2_8;
    mret (s, {| rows := sq_size s; cols := sq_size s |}).
Proof.
  apply (fallback_unused_on_large_frames frame_vga estimate_vga float_2_8);
    simpl; lia.
Defined.

Lemma centre_crop_is_centred_witness :
  ∃ s, select_crop frame_vga None float_2_8
       = Ok (s, {| rows := sq_size s; cols := sq_size s |})
       ∧ sq_size s = Z.min (rows frame_vga) (cols frame_vga)
       ∧ (sq_x s = 0 ∨ sq_y s = 0)
       ∧ 0 ≤ (cols frame_vga - (sq_x s + sq_size s)) - sq_x s ≤ 1
       ∧ 0 ≤ (rows frame_vga - (sq_y s + sq_size s)) - sq_y s ≤ 1.
Proof.
  apply (centre_crop_is_centred frame_vga float_2_8); simpl; lia.
Defined.

Lemma crop_on_small_frames_witness :
  select_crop frame_tiny (Some estimate_vga) float_2_8
  = Ok ({| sq_x := -10; sq_y := -10; sq_size := 50 |}, {| rows := 10; cols := 10 |}).
Proof.
  refine (eq_trans
            (proj2 (crop_on_small_frames frame_tiny estimate_vga float_2_8 _ _ _)
               _ _) _).
  - simpl. lia.
  - simpl. lia.
  - vm_compute. auto.
  - simpl. lia.
  - simpl. lia.
  - reflexivity.
Defined.

(** ** From the control surface to the loop *)

Section selection.
Context `{PyLiterals}.

(** X25: a camera selected through a POST is taken up by the loop at
    its next iteration: with the snapshot that POST leaves, an iteration
    whose recorded index differs records the new index and calls
    [cv2.VideoCapture] on it.  If that call raises, as it does on an
    index it cannot take, the exception ends the loop with no device
    held; otherwise the loop holds the device exactly when the open
    succeeded. *)
Theorem selected_camera_is_opened (disk_ok : bool) (data : dict) (st : store)
    (w : world) (s : loop_state) (n : Z) :
  dom (config st) = dom default_config →
  no_overflow data →
  data !! "camera_index" = Some (VInt n) →
  w_cfg w = get_config (api_config_post disk_ok data st).1 →
  py_eq (VInt n) (current_cam_index s) = false →
  let '(s', t', fl) := iterate w s in
  current_cam_index s' = VInt n
  ∧ EvOpen (VInt n) ∈ t'
  ∧ match w_open_exn w with
    | Some e =>
        fl = Raised e ∧ cap s' = None
        ∧ ∀ ws t, camera_loop (w :: ws) s t = (s', t ++ t', Some e)
    | None => cap s' = if w_open_ok w then Some (VInt n) else None
    end.
Proof.
  intros Hdom Hno Hdata Hw Hne.
  assert (w_cfg w !! "camera_index" = Some (VInt n)) as Hcam.
  { rewrite Hw. unfold get_config.
    destruct (api_config_post_lookup disk_ok data st (no_overflow_checks data Hno))
      as (st' & -> & Hl).
    cbn [fst]. rewrite Hl, Hdata.
    assert (is_Some (config st !! "camera_index")) as [old ->].
    { apply (default_config_keys (config st)); [done|]. by left. }
    reflexivity. }
  unfold iterate.
  rewrite (camera_loop_body_changed w s [] (VInt n) Hcam Hne), switch_camera_cases.
  cbv zeta. cbn [is_none]. simpl app.
  set (rel := match cap s with
              | Some _ => [EvRelease (current_cam_index s)]
              | None => []
              end).
  assert (EvOpen (VInt n) ∈ rel ++ [EvOpen (VInt n)]) as Hin
    by (apply elem_of_app; right; by apply list_elem_of_here).
  destruct (w_open_exn w) as [e|] eqn:Hexn.
  { split; [done|]. split; [done|]. split; [done|]. split; [done|].
    intros ws t. simpl.
    rewrite (camera_loop_body_changed w s t (VInt n) Hcam Hne), switch_camera_cases.
    cbv zeta. cbn [is_none]. by rewrite Hexn. }
  destruct (w_open_ok w); cbn [cap];
    [|split; [done|]; split; [|done];
      apply elem_of_app; right; by apply list_elem_of_here].
  destruct (w_read w) as [frame|]; [|split; [done|]; split; [|done];
    apply elem_of_app; by left].
  match goal with
  | |- context [process_frame w frame ?s1 ?t1] =>
      pose proof (process_frame_cases w frame s1 t1) as Hp;
      destruct (process_frame w frame s1 t1) as [[s' t'] fl]
  end.
  cbn [cap current_cam_index frame_idx smooth] in Hp.
  destruct Hp as (Hc & Hi & _ & _ & Ht).
  split; [done|]. split; [|done].
  destruct Ht as [-> | ->]; [done|]. apply elem_of_app. by left.
Qed.

End selection.

Lemma selected_camera_is_opened_witness :
  let '(s', t', fl) := @iterate no_numeric_strings world_cam_huge state_tracking in
  current_cam_index s' = VInt (2 ^ 31)
  ∧ EvOpen (VInt (2 ^ 31)) ∈ t'
  ∧ match w_open_exn world_cam_huge with
    | Some e =>
        fl = Raised e ∧ cap s' = None
        ∧ ∀ ws t, @camera_loop no_numeric_strings (world_cam_huge :: ws)
                    state_tracking t
                  = (s', t ++ t', Some e)
    | None =>
        cap s' = if w_open_ok world_cam_huge then Some (VInt (2 ^ 31)) else None
    end.
Proof.
  apply (@selected_camera_is_opened no_numeric_strings true
           (<["camera_index" := VInt (2 ^ 31)]> ∅) store0 world_cam_huge
           state_tracking (2 ^ 31)).
  - reflexivity.
  - repeat split; intros v Hv;
      repeat (apply lookup_insert_Some in Hv as [[? <-]|[_ Hv]]; [done|]);
      by rewrite lookup_empty in Hv.
  - reflexivity.
  - apply map_eq. intros k. vm_compute. reflexivity.
  - reflexivity.
Defined.

(** ** The loop and the values of the configuration *)

Lemma apply_orientation_rows (frame : shape) (o : pyval) :
  0 < rows frame → 0 < cols frame → 0 < rows (apply_orientation frame o).
Proof.
  intros Hr Hc. unfold apply_orientation.
  by destruct (py_eq o (VStr "cw")); [|destruct (py_eq o (VStr "ccw"))].
Qed.

Lemma apply_orientation_cols (frame : shape) (o : pyval) :
  0 < rows frame → 0 < cols frame → 0 < cols (apply_orientation frame o).
Proof.
  intros Hr Hc. unfold apply_orientation.
  by destruct (py_eq o (VStr "cw")); [|destruct (py_eq o (VStr "ccw"))].
Qed.

Lemma render_ok_iff_convertible {A : Type} `{PyNumber A} (frame : shape)
    (est : option (estimate A)) (margin : A) :
  0 < rows frame → 0 < cols frame →
  match render frame est margin with
  | Ok img => convertible est margin ∧ img = {| rows := OUT_H; cols := OUT_W |}
  | Raise _ => ¬ convertible est margin
  end.
Proof.
  intros Hr Hc.
  pose proof (select_crop_square_or_raises frame est margin Hr Hc) as Hsel.
  destruct (select_crop frame est margin) as [[sq crop]|ex] eqn:Hs.
  - destruct Hsel as (_ & _ & ->). split; [|done].
    destruct est as [e|]; [|done]. unfold select_crop in Hs.
    destruct (plan_square (rows frame) (cols frame) e margin) as [p|] eqn:Hp;
      [|done].
    destruct (plan_square_ok_inv _ _ _ _ _ Hp) as (d & cx & cy & Hd & Hx & Hy).
    unfold convertible. by rewrite Hd, Hx, Hy.
  - destruct Hsel as [Hn ->]. done.
Qed.

Section loop_config.
Context `{PyLiterals}.

Lemma process_frame_with_config (w : world) (frame : shape) (s : loop_state)
    (t : list event) (o v va vm : pyval) (n : Z) (alpha margin : float) :
  w_cfg w !! "orientation" = Some o →
  w_cfg w !! "detection_every_n_frames" = Some v → py_int v = Ok n →
  w_cfg w !! "smoothing_alpha" = Some va → py_float va = Ok alpha →
  w_cfg w !! "margin_factor" = Some vm → py_float vm = Ok margin →
  process_frame w frame s t
  = match detect w (Z.max 1 n) alpha
            {| smooth := smooth s; frame_idx := frame_idx s + 1;
               current_cam_index := current_cam_index s; cap := cap s |} t with
    | (s2, t2, Next _) => send_frame (apply_orientation frame o) margin s2 t2
    | (s2, t2, Continue) => (s2, t2, Continue)
    | (s2, t2, Raised e) => (s2, t2, Raised e)
    end.
Proof.
  intros Ho Hv Hn Hva Ha Hvm Hm.
  unfold process_frame, subscript. rewrite Ho, Hv, Hva, Hvm.
  loop_unfold. res_step. rewrite Hn, Ha, Hm. res_step.
  by destruct (detect _ _ _ _ _) as [[s2 t2] [[]| |e]].
Qed.

(** X26: under a configuration whose five fields are in the handler's
    ranges, the loop's reads of the configuration and its [int] and
    [float] conversions never raise.  A frame of positive height and
    width then fails only when the detector raises, or when [int] or
    [round] refuses the estimate in use: its size times the margin, or a
    centre coordinate, is infinite or NaN, which an in-range margin such
    as infinity brings about.  In every other case the iteration sends
    one 640x640 image. *)
Theorem validated_config_does_not_raise (w : world) (frame : shape)
    (s : loop_state) (t : list event) :
  dom (w_cfg w) = dom default_config →
  all_in_range (w_cfg w) →
  0 < rows frame → 0 < cols frame →
  ∃ o n alpha margin,
    w_cfg w !! "orientation" = Some o
    ∧ w_cfg w !! "detection_every_n_frames" = Some (VInt n)
    ∧ w_cfg w !! "smoothing_alpha" = Some (VFloat alpha)
    ∧ w_cfg w !! "margin_factor" = Some (VFloat margin)
    ∧ match process_frame w frame s t with
      | (s', t', Raised e) =>
          t' = t
          ∧ (((frame_idx s + 1) mod Z.max 1 n = 0 ∧ w_faces w = Raise e)
             ∨ ¬ convertible (smooth s') margin)
      | (s', t', Continue) => False
      | (s', t', Next _) =>
          convertible (smooth s') margin
          ∧ t' = t ++ [EvSend {| rows := OUT_H; cols := OUT_W |}; EvPace]
      end.
Proof.
  intros Hdom Hin Hr Hc.
  assert (∀ k, k = "camera_index" ∨ k = "orientation"
               ∨ k = "detection_every_n_frames" ∨ k = "smoothing_alpha"
               ∨ k = "margin_factor" →
               ∃ x, w_cfg w !! k = Some x ∧ in_range k x) as Hkey.
  { intros k Hk. apply (default_config_keys (w_cfg w) k Hdom) in Hk as [x Hx].
    exists x. split; [done|]. by apply Hin. }
  destruct (Hkey "orientation") as (o & Ho & _); [by auto|].
  destruct (Hkey "detection_every_n_frames") as (v & Hv & n & -> & _); [by auto|].
  destruct (Hkey "smoothing_alpha") as (va & Hva & alpha & -> & _); [by auto 6|].
  destruct (Hkey "margin_factor") as (vm & Hvm & margin & -> & _); [by auto 6|].
  exists o, n, alpha, margin. do 4 (split; [done|]).
  rewrite (process_frame_with_config w frame s t o (VInt n) (VFloat alpha)
             (VFloat margin) n alpha margin) by done.
  assert (∀ s2, match send_frame (apply_orientation frame o) margin s2 t with
                | (s', t', Raised e) => t' = t ∧ ¬ convertible (smooth s') margin
                | (s', t', Continue) => False
                | (s', t', Next _) =>
                    convertible (smooth s') margin
                    ∧ t' = t ++ [EvSend {| rows := OUT_H; cols := OUT_W |}; EvPace]
                end) as Hsend.
  { intros s2. unfold send_frame. loop_unfold.
    pose proof (render_ok_iff_convertible (apply_orientation frame o) (smooth s2)
                  margin (apply_orientation_rows frame o Hr Hc)
                  (apply_orientation_cols frame o Hr Hc)) as Hren.
    destruct (render _ (smooth s2) margin) as [img|e]; [|done].
    destruct Hren as [Hconv ->]. split; [done|]. by rewrite <- app_assoc. }
  unfold detect. loop_unfold. cbn [frame_idx smooth].
  destruct (Z.eqb_spec ((frame_idx s + 1) mod Z.max 1 n) 0) as [Hdet|Hdet].
  - destruct (w_faces w) as [faces|e]; [|by auto]. cbn [fst snd].
    match goal with
    | |- context [send_frame _ margin ?s2 t] =>
        specialize (Hsend s2); destruct (send_frame _ margin s2 t) as [[s' t'] [[]| |e]]
    end; [done|done|]. destruct Hsend as [-> Hn]. by auto.
  - specialize (Hsend {| smooth := smooth s; frame_idx := frame_idx s + 1;
                         current_cam_index := current_cam_index s; cap := cap s |}).
    match goal with
    | |- context [send_frame _ margin ?s2 t] =>
        destruct (send_frame _ margin s2 t) as [[s' t'] [[]| |e]]
    end; [done|done|]. destruct Hsend as [-> Hn]. by auto.
Qed.

(** X27: a value that [int] or [float] refuses, which only the file can
    bring in since [load_persisted_config] checks nothing, ends the while
    loop at the first frame read under it: the exception leaves the loop,
    nothing is sent for that frame, and no later iteration runs. *)
Theorem unconvertible_alpha_ends_loop (w : world) (ws : list world)
    (s : loop_state) (t : list event) (cam dev o v va : pyval) (frame : shape)
    (n : Z) (e : pyexn) :
  w_cfg w !! "camera_index" = Some cam →
  py_eq cam (current_cam_index s) = true →
  cap s = Some dev →
  w_read w = Some frame →
  w_cfg w !! "orientation" = Some o →
  w_cfg w !! "detection_every_n_frames" = Some v → py_int v = Ok n →
  w_cfg w !! "smoothing_alpha" = Some va → py_float va = Raise e →
  camera_loop (w :: ws) s t
  = ({| smooth := smooth s; frame_idx := frame_idx s + 1;
        current_cam_index := current_cam_index s; cap := cap s |},
     t, Some e).
Proof.
  intros Hcam Heq Hcap Hread Ho Hv Hn Hva Ha. simpl.
  rewrite (camera_loop_body_same w s t cam Hcam Heq), Hcap, Hread.
  unfold process_frame, subscript. rewrite Ho, Hv, Hva.
  loop_unfold. res_step. rewrite Hn. res_step. rewrite Ha.
  by rewrite Hcap.
Qed.

End loop_config.

Lemma validated_config_does_not_raise_witness :
  ∃ o n alpha margin,
    w_cfg world_none !! "orientation" = Some o
    ∧ w_cfg world_none !! "detection_every_n_frames" = Some (VInt n)
    ∧ w_cfg world_none !! "smoothing_alpha" = Some (VFloat alpha)
    ∧ w_cfg world_none !! "margin_factor" = Some (VFloat margin)
    ∧ match @process_frame no_numeric_strings world_none frame_vga
              state_tracking [] with
      | (s', t', Raised e) =>
          t' = []
          ∧ (((frame_idx state_tracking + 1) mod Z.max 1 n = 0
              ∧ w_faces world_none = Raise e)
             ∨ ¬ convertible (smooth s') margin)
      | (s', t', Continue) => False
      | (s', t', Next _) =>
          convertible (smooth s') margin
          ∧ t' = [] ++ [EvSend {| rows := OUT_H; cols := OUT_W |}; EvPace]
      end.
Proof.
  apply (@validated_config_does_not_raise no_numeric_strings world_none frame_vga
           state_tracking []).
  - reflexivity.
  - intros k x Hk. simpl in Hk. unfold config_cam1 in Hk.
    apply lookup_insert_Some in Hk as [[<- <-]|[Hne Hk]].
    + right. reflexivity.
    + apply all_in_range_default in Hk. exact Hk.
  - simpl. lia.
  - simpl. lia.
Defined.

Lemma unconvertible_alpha_ends_loop_witness :
  @camera_loop no_numeric_strings [world_bad_alpha; world_none] state_tracking []
  = ({| smooth := smooth state_tracking; frame_idx := frame_idx state_tracking + 1;
        current_cam_index := current_cam_index state_tracking;
        cap := cap state_tracking |},
     [], Some ValueError).
Proof.
  apply (@unconvertible_alpha_ends_loop no_numeric_strings world_bad_alpha
           [world_none] state_tracking [] (VInt 1) (VInt 1) (VStr "none")
           (VInt 10) (VStr "fast") frame_vga 10 ValueError).
  - vm_compute. reflexivity.
  - reflexivity.
  - reflexivity.
  - reflexivity.
  - vm_compute. reflexivity.
  - vm_compute. reflexivity.
  - reflexivity.
  - vm_compute. reflexivity.
  - reflexivity.
Defined.
